(** * pytsa: trajectory reconstruction from AIS reports

    A shallow embedding of the decision logic of the target-ship search
    agent: the rule engine ([trajectories/rules.py]), the anchor type
    ([structs.py]), message decoding and interval queries
    ([targetship.py]) and track assembly, segmentation, speed correction
    and the neighbour query ([search_agent.py], both generations).

    Number model.  Python floats are embedded as exact rationals [Q];
    comparisons are the boolean tests of [QArith].  Unix timestamps are
    integers [Z] (the assembler stores [int(ts.timestamp())]).  Library
    functions whose values are irrational or implementation defined
    ([np.sqrt], [math.sin], [datetime.strptime], ...) are section
    variables: every statement holds for any implementation of them. *)

From Stdlib Require Import Ascii String ZArith QArith Qabs Qround List Bool Lia Sorted Permutation.
Import ListNotations.

Open Scope Z_scope.

(** ** Numbers *)

Module PyNum.

Definition Qltb (x y : Q) : bool := negb (Qle_bool y x).
Definition Qgtb (x y : Q) : bool := Qltb y x.

(** [max] and [min] of a non-empty list, left to right as [np.max]. *)
Definition Qmaxb (x y : Q) : Q := if Qltb x y then y else x.
Definition Qminb (x y : Q) : Q := if Qltb y x then y else x.

(** [np.ptp]: peak to peak of a sequence; raises on the empty one. *)
Definition ptp (xs : list Q) : option Q :=
  match xs with
  | [] => None
  | x :: r => Some (fold_left Qmaxb r x - fold_left Qminb r x)%Q
  end.

(** [np.sign]. *)
Definition sign (x : Q) : Q :=
  if Qltb 0 x then 1%Q else if Qltb x 0 then (-1)%Q else 0%Q.

Definition Qabsb (x : Q) : Q := if Qltb x 0 then (- x)%Q else x.

End PyNum.
Import PyNum.

(** ** Messages *)

Record AISMessage : Type := mkAISMessage {
  sender : Z;
  timestamp : Z;
  lat : Q;
  lon : Q;
  COG : Q;
  SOG : Q
}.

Definition Track := list AISMessage.

(** Dataclass equality: field by field, numerically. *)
Definition msg_eqb (a b : AISMessage) : bool :=
  (sender a =? sender b) && (timestamp a =? timestamp b)
  && Qeq_bool (lat a) (lat b) && Qeq_bool (lon a) (lon b)
  && Qeq_bool (COG a) (COG b) && Qeq_bool (SOG a) (SOG b).

(** Exceptions the embedded code can raise. *)
Inductive PyException : Type :=
| ValueError
| TypeError
| AttributeError
| IndexError
| KeyError
| ZeroDivisionError
| UnboundLocalError
| OutofTimeBoundsError.

Inductive result (A : Type) : Type :=
| Ok (a : A)
| Raise (e : PyException).
Arguments Ok {A} a.
Arguments Raise {A} e.

(** ** Rule engine ([trajectories/rules.py]) *)

Module Rules.

(** [Rule = Callable[[list[AISMessage]], bool]]; [True] means reject. *)
Definition Rule := Track -> bool.

Record Recipe : Type := mkRecipe { funcs : list Rule }.

(** [Recipe.cooked]: [all(func(track) for func in self.funcs)]. *)
Definition cooked (r : Recipe) (track : Track) : bool :=
  forallb (fun func => func track) (funcs r).

(** [Recipe.cook] hands out the bound method. *)
Definition cook (r : Recipe) : Rule := cooked r.

(** [too_few_obs]: [len(track) < n]. *)
Definition too_few_obs (n : Z) (track : Track) : bool :=
  Z.of_nat (length track) <? n.

(** [too_small_span]: [np.ptp] raises on an empty track. *)
Definition too_small_span (span : Q) (track : Track) : option bool :=
  match ptp (map lat track), ptp (map lon track) with
  | Some lat_span, Some lon_span =>
      Some (Qgtb lat_span span && Qgtb lon_span span)
  | _, _ => None
  end.

(** A rule as a Python callable: it answers or raises. *)
Definition RaisingRule := Track -> result bool.

(** [Recipe.cooked] over callables that may raise: [all] asks the
    rules in order, stops at the first [False] and lets an exception
    through. *)
Fixpoint cooked_raising (funcs : list RaisingRule) (track : Track) : result bool :=
  match funcs with
  | [] => Ok true
  | func :: rest =>
      match func track with
      | Raise e => Raise e
      | Ok false => Ok false
      | Ok true => cooked_raising rest track
      end
  end.

(** [partial(too_few_obs, n=n)] and [partial(too_small_span, span=span)]
    as callables; [np.ptp] raises [ValueError] on an empty sequence. *)
Definition too_few_obs_rule (n : Z) : RaisingRule :=
  fun track => Ok (too_few_obs n track).

Definition too_small_span_rule (span : Q) : RaisingRule :=
  fun track =>
    match too_small_span span track with
    | Some b => Ok b
    | None => Raise ValueError
    end.

End Rules.

(** ** Anchor type ([structs.py]) *)

Module Structs.

Record datetime : Type := mkDatetime {
  year : Z; month : Z; day : Z; hour : Z; minute : Z; second : Z
}.

Definition _DATEFORMAT : string := "%Y-%m-%d %H:%M:%S".

(** What the caller passes as [timestamp]: the constructor parses a
    string, the annotation promises a [datetime]. *)
Inductive ts_arg : Type :=
| TsStr (s : string)
| TsDatetime (d : datetime).

(** One cell of [as_array]. *)
Inductive cell : Type :=
| CTime (d : datetime)
| CNum (q : Q).

Record TimePosition : Type := mkTimePosition {
  tp_timestamp : datetime;
  tp_lat : Q;
  tp_lon : Q;
  as_array : list cell
}.

Section Validation.

(** [datetime.strptime(s, fmt)]; [None] is its [ValueError]. *)
Variable strptime : string -> string -> option datetime.

(** [_validate_timestamp]: a [ValueError] of [strptime] is raised
    again as [ValueError]; a non-string argument makes [strptime]
    raise [TypeError], which is not caught. *)
Definition _validate_timestamp (t : ts_arg) : result datetime :=
  match t with
  | TsStr s =>
      match strptime s _DATEFORMAT with
      | Some d => Ok d
      | None => Raise ValueError
      end
  | TsDatetime _ => Raise TypeError
  end.

(** The generated [__init__] followed by [__post_init__]. *)
Definition new_TimePosition (t : ts_arg) (la lo : Q) : result TimePosition :=
  match _validate_timestamp t with
  | Ok d => Ok (mkTimePosition d la lo [CTime d; CNum la; CNum lo])
  | Raise e => Raise e
  end.

End Validation.

(** The [position] property. *)
Definition position (tp : TimePosition) : Q * Q := (tp_lat tp, tp_lon tp).

(** A parser for the canonical rendering [YYYY-MM-DD HH:MM:SS], used
    to run the constructor on concrete anchors. *)
Definition digit (c : Ascii.ascii) : option Z :=
  let n := Z.of_nat (Ascii.nat_of_ascii c) in
  if (48 <=? n) && (n <=? 57) then Some (n - 48) else None.

Fixpoint digits (n : nat) (acc : Z) (s : string) : option (Z * string) :=
  match n with
  | O => Some (acc, s)
  | S n' =>
      match s with
      | String c r =>
          match digit c with
          | Some d => digits n' (10 * acc + d) r
          | None => None
          end
      | EmptyString => None
      end
  end.

Definition expect (c : Ascii.ascii) (s : string) : option string :=
  match s with
  | String c' r => if Ascii.eqb c c' then Some r else None
  | EmptyString => None
  end.

Definition strptime_canonical (s fmt : string) : option datetime :=
  if negb (String.eqb fmt _DATEFORMAT) then None else
  match digits 4 0 s with
  | Some (Y, s) =>
  match expect "-"%char s with Some s =>
  match digits 2 0 s with Some (m, s) =>
  match expect "-"%char s with Some s =>
  match digits 2 0 s with Some (d, s) =>
  match expect " "%char s with Some s =>
  match digits 2 0 s with Some (H, s) =>
  match expect ":"%char s with Some s =>
  match digits 2 0 s with Some (M, s) =>
  match expect ":"%char s with Some s =>
  match digits 2 0 s with Some (sec, EmptyString) =>
    if (1 <=? Y) && (1 <=? m) && (m <=? 12) && (1 <=? d) && (d <=? 31)
       && (H <=? 23) && (M <=? 59) && (sec <=? 59)
    then Some (mkDatetime Y m d H M sec) else None
  | _ => None end | None => None end | None => None end
  | None => None end | None => None end | None => None end
  | None => None end | None => None end | None => None end
  | None => None end
  | None => None
  end.

End Structs.

(** ** Message decoding and interval queries ([targetship.py]) *)

(** A raw field as the loader hands it over. *)
Inductive pyval : Type :=
| PyNone
| PyInt (z : Z)
| PyFloat (q : Q)
| PyStr (s : string).

Module TargetShip.

Section Decoding.

(** [float(s)] on a string; [None] is its [ValueError]. *)
Variable float_of_string : string -> option Q.

(** [float(v)]; [None] stands for any exception it raises. *)
Definition py_float (v : pyval) : option Q :=
  match v with
  | PyNone => None
  | PyInt z => Some (inject_Z z)
  | PyFloat q => Some q
  | PyStr s => float_of_string s
  end.

(** [AISMessage._rot_handler]; the result [None] is Python's [None]. *)
Definition _rot_handler (rot : pyval) : option Q :=
  match py_float rot with
  | None => None
  | Some rot =>
      let sign := sign rot in
      if Qeq_bool (Qabsb rot) 127 || Qeq_bool (Qabsb rot) 128
      then None
      else Some (sign * (rot / (4733 # 1000)) ^ 2)%Q
  end.

End Decoding.

(** The fitted model: one function of time per channel. *)
Record Interpolation : Type := mkInterpolation {
  northing : Q -> Q;
  easting : Q -> Q;
  iCOG : Q -> Q;
  iSOG : Q -> Q;
  iROT : Q -> Q;
  idROT : Q -> Q
}.

Record TargetVessel : Type := mkTargetVessel {
  mmsi : Z;
  track : Track;
  lower : AISMessage;
  upper : AISMessage;
  interpolation : Interpolation
}.

(** [find_shell]: first and last message of the track. *)
Definition find_shell (tr : Track) : result (AISMessage * AISMessage) :=
  match tr with
  | [] => Raise IndexError
  | m :: r => Ok (m, last r m)
  end.

(** Python's [x % 360] on floats. *)
Definition mod360 (x : Q) : Q := (x - 360 * inject_Z (Qfloor (x / 360)))%Q.

(** [np.arange(start, stop, step)]: [ceil((stop - start) / step)]
    samples, none when that is not positive. *)
Definition arange (start stop step : Q) : result (list Q) :=
  if Qeq_bool step 0 then Raise ZeroDivisionError
  else
    let n := Z.to_nat (Qceiling ((stop - start) / step)) in
    Ok (map (fun i => (start + inject_Z (Z.of_nat i) * step)%Q) (seq 0 n)).

Definition row (ip : Interpolation) (t : Q) : list Q :=
  [northing ip t; easting ip t; mod360 (iCOG ip t); iSOG ip t;
   iROT ip t; idROT ip t; t].

(** [TargetVessel.observe_interval], on unix times. *)
Definition observe_interval (v : TargetVessel) (start stop interval : Q)
  : result (list (list Q)) :=
  if Qltb start (inject_Z (timestamp (lower v))) then
    Raise OutofTimeBoundsError
  else if Qgtb stop (inject_Z (timestamp (upper v))) then
    Raise OutofTimeBoundsError
  else
    match arange start stop interval with
    | Raise e => Raise e
    | Ok timestamps => Ok (map (row (interpolation v)) timestamps)
    end.

(** [TrajectoryMatcher] after [__init__]: the trajectories are
    disjoint on the time axis and nothing else is set, or [start] and
    [end] hold the common time window. *)
Inductive TrajectoryMatcher : Type :=
| DisjointMatcher (vessel1 vessel2 : TargetVessel)
| OverlapMatcher (vessel1 vessel2 : TargetVessel) (start stop : Z).

(** [TrajectoryMatcher._disjoint]. *)
Definition _disjoint (vessel1 vessel2 : TargetVessel) : bool :=
  (timestamp (upper vessel1) <? timestamp (lower vessel2))
  || (timestamp (upper vessel2) <? timestamp (lower vessel1)).

(** [TrajectoryMatcher._start]. *)
Definition _start (vessel1 vessel2 : TargetVessel) : Z :=
  if timestamp (lower vessel1) <? timestamp (lower vessel2)
  then timestamp (lower vessel2)
  else timestamp (lower vessel1).

(** [TrajectoryMatcher._end]. *)
Definition _end (vessel1 vessel2 : TargetVessel) : Z :=
  if timestamp (upper vessel1) >? timestamp (upper vessel2)
  then timestamp (upper vessel2)
  else timestamp (upper vessel1).

(** [TrajectoryMatcher.__init__]. *)
Definition new_TrajectoryMatcher (vessel1 vessel2 : TargetVessel)
  : TrajectoryMatcher :=
  if _disjoint vessel1 vessel2 then DisjointMatcher vessel1 vessel2
  else OverlapMatcher vessel1 vessel2 (_start vessel1 vessel2)
                      (_end vessel1 vessel2).

(** [TrajectoryMatcher.observe_interval]: the observations of both
    vessels over the common window. *)
Definition matcher_observe_interval (m : TrajectoryMatcher) (interval : Q)
  : result (list (list Q) * list (list Q)) :=
  match m with
  | DisjointMatcher _ _ => Raise ValueError
  | OverlapMatcher vessel1 vessel2 start stop =>
      match observe_interval vessel1 (inject_Z start) (inject_Z stop) interval with
      | Raise e => Raise e
      | Ok obs_vessel1 =>
          match observe_interval vessel2 (inject_Z start) (inject_Z stop) interval with
          | Raise e => Raise e
          | Ok obs_vessel2 => Ok (obs_vessel1, obs_vessel2)
          end
      end
  end.

Section Angles.

(** [np.pi]. *)
Variable pi : Q.

(** [_dtr]: from [[0, 360]] degrees to [[-180, 180]] in radians. *)
Definition _dtr (angle : Q) : Q :=
  let o := (mod360 (angle - 180) - 180)%Q in
  (o / 180 * pi)%Q.

(** [_dtr2]: as [_dtr], with the sense of rotation switched. *)
Definition _dtr2 (angle : Q) : Q :=
  let o := (mod360 (angle - 180) - 180)%Q in
  (- o / 180 * pi)%Q.

End Angles.

End TargetShip.

(** ** First-generation search agent ([pytsa/search_agent.py]) *)

Module SearchAgentV1.

Section Geometry.

(** [math.radians], [math.cos], [math.sin], [math.asin], [math.sqrt]. *)
Variables radians cos sin asin sqrt : Q -> Q.

(** [haversine(lon1, lat1, lon2, lat2, miles=True)]. *)
Definition haversine (lon1 lat1 lon2 lat2 : Q) (miles : bool) : Q :=
  let lon1 := radians lon1 in
  let lat1 := radians lat1 in
  let lon2 := radians lon2 in
  let lat2 := radians lat2 in
  let dlon := (lon2 - lon1)%Q in
  let dlat := (lat2 - lat1)%Q in
  let a := (sin (dlat / 2) ^ 2 + cos lat1 * cos lat2 * sin (dlon / 2) ^ 2)%Q in
  let c := (2 * asin (sqrt a))%Q in
  let r := if miles then 3956%Q else 6371%Q in
  (c * r)%Q.

(** [(msg_t1.timestamp - msg_t0.timestamp).total_seconds()]. *)
Definition total_seconds (msg_t0 msg_t1 : AISMessage) : Q :=
  inject_Z (timestamp msg_t1 - timestamp msg_t0).

(** [SearchAgent._gap_too_large]. *)
Definition _gap_too_large (tgap dgap : Q) (msg_t0 msg_t1 : AISMessage) : bool :=
  Qgtb (total_seconds msg_t0 msg_t1) tgap
  || Qgtb (haversine (lon msg_t0) (lat msg_t0) (lon msg_t1) (lat msg_t1) true) dgap.

End Geometry.

(** [SearchAgent._track_length_filter]. *)
Definition _track_length_filter (track : Track) (n : Z) : bool :=
  Z.of_nat (length track) <? n.

(** [SearchAgent._track_span_filter]. *)
Definition _track_span_filter (track : Track) (span : Q) : option bool :=
  match ptp (map lat track), ptp (map lon track) with
  | Some lat_span, Some lon_span =>
      Some (Qgtb lat_span span && Qgtb lon_span span)
  | _, _ => None
  end.

(** [m2nm]: meters to nautical miles. *)
Definition m2nm (m : Q) : Q := (m / 1852)%Q.

(** [nm2m]: nautical miles to meters. *)
Definition nm2m (nm : Q) : Q := (nm * 1852)%Q.

End SearchAgentV1.

(** ** Sequences *)

Module PySeq.

Section Sorting.
Context {A : Type}.
Variable key : A -> Z.

(** Stable sort by an integer key ([list.sort(key=...)],
    [DataFrame.sort_values(by=...)]). *)
Fixpoint insert_by (x : A) (l : list A) : list A :=
  match l with
  | [] => [x]
  | y :: r => if key x <=? key y then x :: l else y :: insert_by x r
  end.

Fixpoint sort_by (l : list A) : list A :=
  match l with
  | [] => []
  | x :: r => insert_by x (sort_by r)
  end.
End Sorting.

(** [l[-1]]. *)
Definition last_opt {A : Type} (l : list A) : option A :=
  match l with
  | [] => None
  | x :: r => Some (last r x)
  end.

(** [l[a:b]] for [0 <= a], [0 <= b]. *)
Definition slice {A : Type} (l : list A) (a b : nat) : list A :=
  skipn a (firstn b l).

(** [l.remove(x)]: drops the first element equal to [x], by the
    field-wise equality of the message dataclass. *)
Fixpoint remove_first (x : AISMessage) (l : Track) : Track :=
  match l with
  | [] => []
  | y :: r => if msg_eqb y x then r else y :: remove_first x r
  end.

End PySeq.
Import PySeq.

(** ** Second-generation search agent ([tsea/search_agent.py]) *)

Module SearchAgent.

Record TargetShip : Type := mkTargetShip {
  ts : option Z;
  mmsi : Z;
  tracks : list Track
}.

Definition set_tracks (t : TargetShip) (trs : list Track) : TargetShip :=
  mkTargetShip (ts t) (mmsi t) trs.

(** [Targets = dict[MMSI, TargetShip]], in insertion order. *)
Definition Targets := list (Z * TargetShip).

Fixpoint dict_get (d : Targets) (k : Z) : option TargetShip :=
  match d with
  | [] => None
  | (k', v) :: r => if k' =? k then Some v else dict_get r k
  end.

Fixpoint dict_set (d : Targets) (k : Z) (v : TargetShip) : Targets :=
  match d with
  | [] => [(k, v)]
  | (k', v') :: r => if k' =? k then (k, v) :: r else (k', v') :: dict_set r k v
  end.

(** [del d[k]]. *)
Fixpoint dict_del (d : Targets) (k : Z) : result Targets :=
  match d with
  | [] => Raise KeyError
  | (k', v') :: r =>
      if k' =? k then Ok r
      else match dict_del r k with
           | Ok r' => Ok ((k', v') :: r')
           | Raise e => Raise e
           end
  end.

(** An attribute assignment on the object stored under [k]: seen
    through the dictionary while the object is still in it. *)
Fixpoint dict_mutate (d : Targets) (k : Z) (v : TargetShip) : Targets :=
  match d with
  | [] => []
  | (k', v') :: r => if k' =? k then (k, v) :: r else (k', v') :: dict_mutate r k v
  end.

(** One row of the dynamic-report frame. *)
Record Row : Type := mkRow {
  r_mmsi : Z;
  r_timestamp : Z;
  r_lat : Q;
  r_lon : Q;
  r_speed : Q;
  r_course : Q
}.

Definition msg_of_row (MMSI : Z) (r : Row) : AISMessage :=
  mkAISMessage MMSI (r_timestamp r) (r_lat r) (r_lon r) (r_course r) (r_speed r).

(** The loop of [_impl_construct_target_vessel] over the sorted rows;
    [track] is [tv.tracks[-1]]. *)
Fixpoint impl_loop (MMSI : Z) (first : bool) (track : Track) (rows : list Row)
  : Track :=
  match rows with
  | [] => track
  | r :: rest =>
      let msg := msg_of_row MMSI r in
      if first then impl_loop MMSI false (track ++ [msg]) rest
      else
        match last_opt track with
        | Some l =>
            if timestamp msg =? timestamp l
            then impl_loop MMSI first track rest
            else impl_loop MMSI first (track ++ [msg]) rest
        | None => impl_loop MMSI first (track ++ [msg]) rest
        end
  end.

(** [SearchAgent._impl_construct_target_vessel]: one vessel, one chunk. *)
Definition _impl_construct_target_vessel (dyn : list Row) : result Targets :=
  match dyn with
  | [] => Raise IndexError
  | r0 :: _ =>
      let MMSI := r_mmsi r0 in
      let dyn := sort_by r_timestamp dyn in
      Ok [(MMSI, mkTargetShip None MMSI [impl_loop MMSI true [] dyn])]
  end.

(** The body of the two loops of [_join_tracks]. *)
Definition join_one (targets : Targets) (item : Z * TargetShip) : result Targets :=
  let (mmsi, tgt) := item in
  match dict_get targets mmsi with
  | None => Ok (dict_set targets mmsi tgt)
  | Some cur =>
      match tracks cur, tracks tgt with
      | t0 :: rest, u0 :: _ =>
          match last_opt t0, u0 with
          | Some l, f :: u0' =>
              let u0 := if timestamp l =? timestamp f then u0' else u0 in
              Ok (dict_set targets mmsi (set_tracks cur ((t0 ++ u0) :: rest)))
          | _, _ => Raise IndexError
          end
      | _, _ => Raise IndexError
      end
  end.

Fixpoint join_items (targets : Targets) (items : list (Z * TargetShip))
  : result Targets :=
  match items with
  | [] => Ok targets
  | it :: rest =>
      match join_one targets it with
      | Ok targets' => join_items targets' rest
      | Raise e => Raise e
      end
  end.

(** [SearchAgent._join_tracks], on the sequence of its arguments. *)
Definition _join_tracks (singles : list Targets) : result Targets :=
  join_items [] (concat singles).

Section Splitting.

(** [split.is_split_point]. *)
Variable is_split_point : AISMessage -> AISMessage -> bool.

(** The loop [for i, (msg_t0, msg_t1) in enumerate(pairwise(track))]
    of [_determine_split_points].  [pairwise] reads the list through
    one index, [i + 1] at step [i], and keeps the element read last
    as the next [msg_t0]; the list shrinks under it when a duplicate
    is removed.  At most [len(track)] steps are taken, which bounds
    [fuel]. *)
Fixpoint split_loop (fuel : nat) (track : Track) (msg_t0 : AISMessage)
    (i tstartidx : nat) (_itracks : list Track) : Track * list Track :=
  match fuel with
  | O => (track, _itracks)
  | S fuel' =>
      match nth_error track (S i) with
      | None => (track, _itracks)
      | Some msg_t1 =>
          if timestamp msg_t0 =? timestamp msg_t1 then
            split_loop fuel' (remove_first msg_t1 track) msg_t1
                       (S i) tstartidx _itracks
          else if is_split_point msg_t0 msg_t1 then
            split_loop fuel' track msg_t1 (S i) (S i)
                       (_itracks ++ [slice track tstartidx (S i)])
          else
            split_loop fuel' track msg_t1 (S i) tstartidx _itracks
      end
  end.

(** One pass of the body of [for track in tgt.tracks]: the track as
    it is left behind and the fresh [_itracks]. *)
Definition split_track (track : Track) : Track * list Track :=
  let track := sort_by timestamp track in
  match track with
  | [] => (track, [])
  | m :: _ => split_loop (length track) track m 0 0 []
  end.

(** [_itracks] after [for track in tgt.tracks]; it keeps its old
    binding (possibly none) when there is no track. *)
Definition itracks_after (trs : list Track) (bound : option (list Track))
  : option (list Track) :=
  fold_left (fun _ track => Some (snd (split_track track))) trs bound.

Definition longer_than_one (track : Track) : bool :=
  (1 <? length track)%nat.

(** The body of [for tgt in list(targets.values())]; [k] is the key
    under which [tgt] is stored. *)
Definition split_target (st : Targets * option (list Track))
    (item : Z * TargetShip) : result (Targets * option (list Track)) :=
  let (targets, bound) := st in
  let (k, tgt) := item in
  match itracks_after (tracks tgt) bound with
  | None => Raise UnboundLocalError
  | Some _itracks =>
      let kept := filter longer_than_one _itracks in
      let targets := dict_mutate targets k (set_tracks tgt kept) in
      match kept with
      | [] =>
          match dict_del targets (mmsi tgt) with
          | Ok targets' => Ok (targets', Some _itracks)
          | Raise e => Raise e
          end
      | _ => Ok (targets, Some _itracks)
      end
  end.

Fixpoint split_targets (st : Targets * option (list Track))
    (items : list (Z * TargetShip)) : result Targets :=
  match items with
  | [] => Ok (fst st)
  | item :: rest =>
      match split_target st item with
      | Ok st' => split_targets st' rest
      | Raise e => Raise e
      end
  end.

(** [SearchAgent._determine_split_points]. *)
Definition _determine_split_points (targets : Targets) : result Targets :=
  split_targets (targets, None) targets.

(** [_mp_construct_target_vessels] with [skip_tsplit=False], the
    chunks already distributed by vessel. *)
Definition _mp_construct_target_vessels (frames : list (list Row))
  : result Targets :=
  let fix singles (fs : list (list Row)) : result (list Targets) :=
    match fs with
    | [] => Ok []
    | f :: rest =>
        match _impl_construct_target_vessel f, singles rest with
        | Ok s, Ok ss => Ok (s :: ss)
        | Raise e, _ => Raise e
        | _, Raise e => Raise e
        end
    end in
  match singles frames with
  | Raise e => Raise e
  | Ok ss =>
      match _join_tracks ss with
      | Raise e => Raise e
      | Ok targets => _determine_split_points targets
      end
  end.

End Splitting.

(** The query anchor as the agent reads it: unix time and position. *)
Record TimePosition : Type := mkTimePosition {
  tp_timestamp : Z;
  tp_lat : Q;
  tp_lon : Q
}.

(** [tracks[-1].append(msg)]. *)
Fixpoint append_last (trs : list Track) (msg : AISMessage) : list Track :=
  match trs with
  | [] => []
  | [t] => [t ++ [msg]]
  | t :: r => t :: append_last r msg
  end.

(** [SearchAgent._overlaps_search_date]. *)
Definition _overlaps_search_date (track : Track) (tpos : TimePosition)
  : result bool :=
  match track with
  | [] => Raise IndexError
  | m :: r =>
      Ok ((timestamp m <? tp_timestamp tpos)
          && (tp_timestamp tpos <? timestamp (last r m)))
  end.

Fixpoint overlapping (trs : list Track) (tpos : TimePosition)
  : result (list Track) :=
  match trs with
  | [] => Ok []
  | track :: rest =>
      match _overlaps_search_date track tpos, overlapping rest tpos with
      | Ok b, Ok to_keep => Ok (if b then track :: to_keep else to_keep)
      | Raise e, _ => Raise e
      | _, Raise e => Raise e
      end
  end.

(** [SearchAgent._filter_overlapping]. *)
Fixpoint _filter_overlapping (targets : Targets) (tpos : TimePosition)
  : result Targets :=
  match targets with
  | [] => Ok []
  | (k, tgt) :: rest =>
      match overlapping (tracks tgt) tpos, _filter_overlapping rest tpos with
      | Ok to_keep, Ok rest' => Ok ((k, set_tracks tgt to_keep) :: rest')
      | Raise e, _ => Raise e
      | _, Raise e => Raise e
      end
  end.

(** The test of [_overlaps_search_date] on a track that has a report. *)
Definition straddles (tpos : TimePosition) (track : Track) : bool :=
  match track with
  | [] => false
  | m :: r => (timestamp m <? tp_timestamp tpos)
              && (tp_timestamp tpos <? timestamp (last r m))
  end.

(** [SearchAgent._remove_single_obs]. *)
Definition _remove_single_obs (targets : Targets) : Targets :=
  map (fun kv : Z * TargetShip =>
         (fst kv,
          set_tracks (snd kv)
            (filter (fun track : Track => (2 <=? length track)%nat)
                    (tracks (snd kv)))))
      targets.

Section SingleProcess.

Variable is_split_point : AISMessage -> AISMessage -> bool.

(** The body of the row loop of [_sp_construct_target_vessels]. *)
Definition sp_step (tpos : TimePosition) (targets : Targets) (r : Row)
  : result Targets :=
  let mmsi := r_mmsi r in
  let msg := msg_of_row mmsi r in
  match dict_get targets mmsi with
  | None =>
      Ok (dict_set targets mmsi
            (mkTargetShip (Some (tp_timestamp tpos)) mmsi [[msg]]))
  | Some v =>
      match last_opt (tracks v) with
      | None => Raise IndexError
      | Some tr =>
          match last_opt tr with
          | None => Raise IndexError
          | Some l =>
              let trs := if is_split_point l msg
                         then tracks v ++ [[]] else tracks v in
              Ok (dict_set targets mmsi (set_tracks v (append_last trs msg)))
          end
      end
  end.

Fixpoint sp_loop (tpos : TimePosition) (targets : Targets) (rows : list Row)
  : result Targets :=
  match rows with
  | [] => Ok targets
  | r :: rest =>
      match sp_step tpos targets r with
      | Ok targets' => sp_loop tpos targets' rest
      | Raise e => Raise e
      end
  end.

(** [SearchAgent._sp_construct_target_vessels]. *)
Definition _sp_construct_target_vessels (neighbors : list Row)
    (tpos : TimePosition) (overlap : bool) : result Targets :=
  let neighbors := sort_by r_timestamp neighbors in
  match sp_loop tpos [] neighbors with
  | Raise e => Raise e
  | Ok targets =>
      let targets := _remove_single_obs targets in
      if overlap then _filter_overlapping targets tpos else Ok targets
  end.

(** Two messages that stay in one track, and two tracks that follow
    one another. *)
Definition joined (a b : AISMessage) : Prop := is_split_point a b = false.

Definition broken (t t' : Track) : Prop :=
  exists a b, last_opt t = Some a /\ hd_error t' = Some b
              /\ is_split_point a b = true.

(** What the row loop has built once the rows [seen] are consumed. *)
Definition assembled (targets : Targets) (seen : list Row) : Prop :=
  forall k,
    match dict_get targets k with
    | None => filter (fun r => r_mmsi r =? k) seen = []
    | Some v =>
        tracks v <> []
        /\ Forall (fun t : Track => t <> []) (tracks v)
        /\ concat (tracks v)
           = map (msg_of_row k) (filter (fun r => r_mmsi r =? k) seen)
        /\ Forall (Sorted joined) (tracks v)
        /\ Sorted broken (tracks v)
    end.

End SingleProcess.

Section Numeric.

(** [np.sqrt]. *)
Variable np_sqrt : Q -> Q.

(** What [pairwise] hands to the body of a loop: a report, or a track
    (a Python list), which has none of a report's attributes. *)
Inductive pyobj : Type :=
| Report (m : AISMessage)
| TrackObj (t : Track).

(** A numpy float: a number, or one of [inf] and [nan]. *)
Inductive npfloat : Type :=
| Finite (q : Q)
| NonFinite.

(** [_time_mean_speed], in degrees per hour.  It reads [lat], [lon]
    and [timestamp] off both arguments; with a time offset of zero the
    division is by zero, which numpy answers with [inf] or [nan]. *)
Definition _time_mean_speed (msg_t0 msg_t1 : pyobj) : result npfloat :=
  match msg_t0, msg_t1 with
  | Report m0, Report m1 =>
      let lat_offset := ((lat m1 - lat m0) ^ 2)%Q in
      let lon_offset := ((lon m1 - lon m0) ^ 2)%Q in
      let time_offset := timestamp m1 - timestamp m0 in
      if time_offset =? 0 then Ok NonFinite
      else Ok (Finite (np_sqrt (lat_offset + lon_offset)
                       / (inject_Z time_offset / 60 / 60))%Q)
  | _, _ => Raise AttributeError
  end.

(** The body of the loop of [_speed_correction].  The loop is over
    [pairwise(target.tracks)], so [msg_t0] and [msg_t1] are tracks:
    after the call of [_time_mean_speed] the bounds would read
    [msg_t0.SOG] and [msg_t1.SOG] off them. *)
Definition speed_body (msg_t0 msg_t1 : Track) (n : Z) : result Z :=
  match _time_mean_speed (TrackObj msg_t0) (TrackObj msg_t1) with
  | Raise e => Raise e
  | Ok _ => Raise AttributeError
  end.

(** [for msg_t0, msg_t1 in pairwise(target.tracks)]. *)
Fixpoint speed_pairs (msg_t0 : Track) (rest : list Track) (n : Z) : result Z :=
  match rest with
  | [] => Ok n
  | msg_t1 :: rest' =>
      match speed_body msg_t0 msg_t1 n with
      | Raise e => Raise e
      | Ok n' => speed_pairs msg_t1 rest' n'
      end
  end.

Definition speed_target (target : TargetShip) (n : Z) : result Z :=
  match tracks target with
  | [] => Ok n
  | msg_t0 :: rest => speed_pairs msg_t0 rest n
  end.

Fixpoint speed_targets (values : list TargetShip) (n : Z) : result Z :=
  match values with
  | [] => Ok n
  | target :: rest =>
      match speed_target target n with
      | Raise e => Raise e
      | Ok n' => speed_targets rest n'
      end
  end.

(** [SearchAgent._speed_correction]: the targets as it leaves them and
    [self._n_speed_correction], which starts at [n]. *)
Definition _speed_correction (targets : Targets) (n : Z) : result (Targets * Z) :=
  match speed_targets (map snd targets) n with
  | Raise e => Raise e
  | Ok n' => Ok (targets, n')
  end.

(** The time zone of the timestamp column as the filter uses it:
    [tz_localize], from a wall-clock time in seconds to the unix time
    of the instant it names in the zone; it raises on a wall-clock
    time that the zone does not have, or has twice. *)
Definition tzinfo := Z -> result Z.

(** [SearchAgent._time_filter]: an open window of [delta] minutes
    around the anchor, whose unix time is read as a wall-clock time
    in the zone of the column; [tz = None] is a column without a
    zone, on which [.tz.zone] raises. *)
Definition _time_filter (tz : option tzinfo) (df : list Row) (date : Z)
    (delta : Z) : result (list Row) :=
  match df with
  | [] => Raise IndexError
  | _ =>
      match tz with
      | None => Raise AttributeError
      | Some tz_localize =>
          match tz_localize date with
          | Raise e => Raise e
          | Ok date =>
              let dt := delta * 60 in
              Ok (filter (fun r => (date - dt <? r_timestamp r)
                                   && (r_timestamp r <? date + dt)) df)
          end
      end
  end.

(** A distance as [cKDTree.query] reports it; [None] is [inf]. *)
Definition dist := option Q.

Definition euclid (x : Q * Q) (r : Row) : Q :=
  np_sqrt ((fst x - r_lat r) ^ 2 + (snd x - r_lon r) ^ 2)%Q.

Fixpoint enumerate_from {A : Type} (i : nat) (l : list A) : list (nat * A) :=
  match l with
  | [] => []
  | a :: r => (i, a) :: enumerate_from (S i) r
  end.

(** The test of the tree against [distance_upper_bound]. *)
Definition within (bound : dist) (d : Q) : bool :=
  match bound with
  | None => true
  | Some b => Qltb d b
  end.

Fixpoint insert_hit (h : Q * nat) (l : list (Q * nat)) : list (Q * nat) :=
  match l with
  | [] => [h]
  | y :: r => if Qle_bool (fst h) (fst y) then h :: l else y :: insert_hit h r
  end.

Fixpoint sort_hits (l : list (Q * nat)) : list (Q * nat) :=
  match l with
  | [] => []
  | h :: r => insert_hit h (sort_hits r)
  end.

(** The points of the tree within the bound, with their row index. *)
Definition in_reach (data : list Row) (x : Q * Q) (bound : dist)
  : list (Q * nat) :=
  filter (fun h : Q * nat => within bound (fst h))
         (map (fun ir : nat * Row => (euclid x (snd ir), fst ir))
              (enumerate_from 0 data)).


(** [cKDTree(data).query(x, k, distance_upper_bound)] for [k >= 2]:
    the [k] nearest points within the bound by increasing distance,
    missing neighbours reported as distance [inf] and index
    [len(data)]. *)
Definition cKDTree_query (data : list Row) (x : Q * Q) (k : nat) (bound : dist)
  : list (dist * nat) :=
  let hits := firstn k (sort_hits (in_reach data x bound)) in
  map (fun h : Q * nat => (Some (fst h), snd h)) hits
  ++ repeat (None, length data) (k - length hits).

(** [filtered.iloc[res]]. *)
Fixpoint iloc (df : list Row) (res : list nat) : result (list Row) :=
  match res with
  | [] => Ok []
  | i :: rest =>
      match nth_error df i, iloc df rest with
      | Some r, Ok rows => Ok (r :: rows)
      | None, _ => Raise IndexError
      | _, Raise e => Raise e
      end
  end.

Definition is_finite (d : dist) : bool :=
  match d with
  | None => false
  | Some _ => true
  end.

(** [SearchAgent._get_neighbors]; [search_radius = None] is
    [np.inf], [k] is [self.max_tgt_ships], [time_delta] is
    [self.time_delta], [tz] the zone of the timestamp column.  For
    [k = 1] the tree answers with two scalars, and [enumerate(d)]
    raises; [k = 0] is refused by the tree. *)
Definition _get_neighbors (tz : option tzinfo) (dynamic_data : list Row)
    (time_delta : Z) (k : nat) (tpos : TimePosition) (search_radius : dist)
  : result (list Row) :=
  match _time_filter tz dynamic_data (tp_timestamp tpos) time_delta with
  | Raise e => Raise e
  | Ok [] => Ok []
  | Ok filtered =>
      let sr := match search_radius with
                | Some r => Some (r / 60)%Q
                | None => None
                end in
      match k with
      | O => Raise ValueError
      | S O => Raise TypeError
      | _ =>
          let q := cKDTree_query filtered (tp_lat tpos, tp_lon tpos) k sr in
          let res := map snd (filter (fun e : dist * nat => is_finite (fst e)) q) in
          iloc filtered res
      end
  end.

End Numeric.

(** A square root that is exact on squares of rationals, used to run
    the numeric code on concrete reports. *)
Definition sqrt_on_squares (q : Q) : Q :=
  Z.sqrt (Qnum q) # Pos.sqrt (Qden q).

(** [Series.unique]: the distinct values in order of appearance. *)
Fixpoint unique (seen l : list Z) : list Z :=
  match l with
  | [] => []
  | x :: r =>
      if existsb (Z.eqb x) seen then unique seen r
      else x :: unique (x :: seen) r
  end.

(** [SearchAgent._distribute]: one frame per vessel. *)
Definition _distribute (df : list Row) : list (list Row) :=
  map (fun mmsi => filter (fun r => r_mmsi r =? mmsi) df)
      (unique [] (map r_mmsi df)).

(** One row of the static-report frame. *)
Record StaticRow : Type := mkStaticRow {
  s_mmsi : Z;
  s_shiptype : Z;
  s_to_bow : Z;
  s_to_stern : Z
}.

(** [np.unique]: the sorted distinct values. *)
Fixpoint dedup_sorted (l : list Z) : list Z :=
  match l with
  | [] => []
  | x :: r =>
      match r with
      | [] => [x]
      | y :: _ => if x =? y then dedup_sorted r else x :: dedup_sorted r
      end
  end.

Definition np_unique (l : list Z) : list Z :=
  dedup_sorted (sort_by (fun z => z) l).

(** What a numpy expression evaluates to: one number or an array. *)
Inductive np_value : Type :=
| Scalar (z : Z)
| Array (l : list Z).

(** Python's [max] over a non-empty sequence, from its first element. *)
Definition py_max (x : Z) (l : list Z) : Z :=
  fold_left (fun acc y => if acc <? y then y else acc) l x.

(** Addition of two [int64] values: it wraps around. *)
Definition wrap64 (z : Z) : Z := (z + 2 ^ 63) mod 2 ^ 64 - 2 ^ 63.

(** [SearchAgent._get_ship_length]; [np.sum] adds the two [int64]
    columns row by row. *)
Definition _get_ship_length (static_msgs : list StaticRow) (mmsi : Z) : np_value :=
  let raw := filter (fun r => s_mmsi r =? mmsi) static_msgs in
  let sl := map (fun r => wrap64 (s_to_bow r + s_to_stern r)) raw in
  let sl := np_unique sl in
  match sl with
  | x :: _ :: _ => Scalar (py_max x (tl sl))
  | _ => Array sl
  end.

(** [SearchAgent._get_ship_type]: an array of the distinct types when
    there are several, a list of them otherwise. *)
Definition _get_ship_type (static_msgs : list StaticRow) (mmsi : Z) : list Z :=
  let st := map s_shiptype
                (filter (fun r => s_mmsi r =? mmsi) static_msgs) in
  np_unique st.

Section Position.

(** [np.sqrt], [np.cos], [np.sin], [np.deg2rad]. *)
Variables np_sqrt np_cos np_sin np_deg2rad : Q -> Q.

(** [SearchAgent._break_down_velocity]. *)
Definition _break_down_velocity (speed course : Q) : Q * Q :=
  ((speed * np_cos (np_deg2rad course))%Q,
   (speed * np_sin (np_deg2rad course))%Q).

(** The body of the loop of [_position_correction], over
    [pairwise(target.tracks)]: its first statement reads
    [msg_t1.timestamp] off a track. *)
Definition position_body (msg_t0 msg_t1 : Track) (n : Z) : result Z :=
  Raise AttributeError.

Fixpoint position_pairs (msg_t0 : Track) (rest : list Track) (n : Z) : result Z :=
  match rest with
  | [] => Ok n
  | msg_t1 :: rest' =>
      match position_body msg_t0 msg_t1 n with
      | Raise e => Raise e
      | Ok n' => position_pairs msg_t1 rest' n'
      end
  end.

Definition position_target (target : TargetShip) (n : Z) : result Z :=
  match tracks target with
  | [] => Ok n
  | msg_t0 :: rest => position_pairs msg_t0 rest n
  end.

Fixpoint position_targets (values : list TargetShip) (n : Z) : result Z :=
  match values with
  | [] => Ok n
  | target :: rest =>
      match position_target target n with
      | Raise e => Raise e
      | Ok n' => position_targets rest n'
      end
  end.

(** [SearchAgent._position_correction]: the targets as it leaves them
    and [self._n_position_correction], which starts at [n]. *)
Definition _position_correction (targets : Targets) (n : Z)
  : result (Targets * Z) :=
  match position_targets (map snd targets) n with
  | Raise e => Raise e
  | Ok n' => Ok (targets, n')
  end.

(** [SearchAgent._corrections]: speeds first, then positions; the two
    counters are returned with the targets. *)
Definition _corrections (targets : Targets) (ns np : Z)
  : result (Targets * Z * Z) :=
  match _speed_correction np_sqrt targets ns with
  | Raise e => Raise e
  | Ok (targets, ns) =>
      match _position_correction targets np with
      | Raise e => Raise e
      | Ok (targets, np) => Ok (targets, ns, np)
      end
  end.

End Position.

End SearchAgent.

(** ** Scenarios

    Concrete reports and library instances on which the code is run. *)

Module Scenarios.

(** Two reports of one vessel, ten degrees apart on both axes. *)
Definition two_reports : Track :=
  [mkAISMessage 111000111 0 0 0 90 10; mkAISMessage 111000111 60 10 10 90 10].

(** Stand-ins for the [math] functions: exact on the values used. *)
Definition radians (x : Q) : Q := x.
Definition cos (x : Q) : Q := 1.
Definition sin (x : Q) : Q := x.
Definition asin (x : Q) : Q := x.
Definition sqrt (x : Q) : Q := SearchAgent.sqrt_on_squares x.

(** [float] on strings: decimal integers only. *)
Definition float_of_string (s : string) : option Q :=
  match s with
  | EmptyString => None
  | _ =>
      match Structs.digits (String.length s) 0 s with
      | Some (z, _) => Some (inject_Z z)
      | None => None
      end
  end.

(** A vessel whose track spans the unix times 0 to 100, with a
    linear model on every channel. *)
Definition line (t : Q) : Q := (2 * t + 1)%Q.

Definition vessel_0_100 : TargetShip.TargetVessel :=
  TargetShip.mkTargetVessel 111000111
    [mkAISMessage 111000111 0 0 0 90 10; mkAISMessage 111000111 100 1 1 90 10]
    (mkAISMessage 111000111 0 0 0 90 10)
    (mkAISMessage 111000111 100 1 1 90 10)
    (TargetShip.mkInterpolation line line line line line (fun _ => 0%Q)).

(** A pool of six reports: three within 20 nm (a third of a degree)
    of the anchor at the origin, two farther away, one outside the
    time window. *)
Definition anchor : SearchAgent.TimePosition :=
  SearchAgent.mkTimePosition 1000 0 0.

Definition pool : list SearchAgent.Row :=
  [SearchAgent.mkRow 211 900 (1 # 10) 0 10 0;
   SearchAgent.mkRow 212 950 5 5 10 0;
   SearchAgent.mkRow 213 1000 0 (2 # 10) 10 0;
   SearchAgent.mkRow 214 1010 0 (-3 # 10) 10 0;
   SearchAgent.mkRow 215 1020 1 0 10 0;
   SearchAgent.mkRow 216 9000 0 0 10 0].

(** A split predicate on the time gap alone: more than 1800 s. *)
Definition time_gap (a b : AISMessage) : bool :=
  1800 <? timestamp b - timestamp a.

(** A report of vessel 111000111 at unix time [t] and latitude [la]. *)
Definition report (t : Z) (la : Q) : SearchAgent.Row :=
  SearchAgent.mkRow 111000111 t la 0 10 90.

Definition message (t : Z) (la : Q) : AISMessage :=
  mkAISMessage 111000111 t la 0 90 10.

(** One chunk, no duplicate: two reports, a gap of 4990 s, three
    reports. *)
Definition gapped_chunk : list SearchAgent.Row :=
  [report 0 0; report 10 1; report 5000 2; report 5010 3; report 5020 4].

(** One chunk, no duplicate and no gap. *)
Definition steady_chunk : list SearchAgent.Row :=
  [report 0 0; report 10 1; report 20 2].

(** Two reports received for the same second. *)
Definition doubled_reports : list SearchAgent.Row :=
  [report 0 0; report 10 1; report 10 2; report 20 3].

(** Two chunks that overlap in time. *)
Definition overlapping_chunks : list (list SearchAgent.Row) :=
  [[report 0 0; report 10 1; report 20 2];
   [report 10 3; report 20 4; report 30 5; report 5000 6; report 5010 7]].

(** Three reports an hour apart, 10 and then 12 nautical miles (a
    sixth and a fifth of a degree of latitude) apart, with reported
    speeds of 10, 10 and 40 knots. *)
Definition speeding : Track :=
  [mkAISMessage 1 0 0 0 0 10; mkAISMessage 1 3600 (1 # 6) 0 0 10;
   mkAISMessage 1 7200 (11 # 30) 0 0 40].

(** The vessel as the assembler builds it: its reports in one track. *)
Definition speeding_targets : SearchAgent.Targets :=
  [(1, SearchAgent.mkTargetShip None 1 [speeding])].

(** A vessel with two tracks. *)
Definition two_track_targets : SearchAgent.Targets :=
  [(1, SearchAgent.mkTargetShip None 1
         [[mkAISMessage 1 0 0 0 0 10; mkAISMessage 1 60 0 0 0 10];
          [mkAISMessage 1 7200 1 0 0 10; mkAISMessage 1 7260 1 0 0 10]])].

(** The column's zone is UTC. *)
Definition utc : SearchAgent.tzinfo := fun t => Ok t.

(** Static reports: two lengths on file for vessel 1, one for vessel 2. *)
Definition static_reports : list SearchAgent.StaticRow :=
  [SearchAgent.mkStaticRow 1 70 100 20; SearchAgent.mkStaticRow 2 80 50 10;
   SearchAgent.mkStaticRow 1 70 90 20; SearchAgent.mkStaticRow 1 71 100 20].

End Scenarios.
Import Scenarios.

(** * Properties *)

(** ** Boolean comparisons *)

Lemma Qltb_lt x y : Qltb x y = true <-> (x < y)%Q.
Proof.
  unfold Qltb. rewrite negb_true_iff.
  split; intro H.
  - apply Qnot_le_lt. intro L. apply Qle_bool_iff in L. congruence.
  - destruct (Qle_bool y x) eqn:E; [|reflexivity].
    apply Qle_bool_iff in E. exfalso. exact (Qlt_not_le _ _ H E).
Qed.

Lemma Qltb_ge x y : Qltb x y = false <-> (y <= x)%Q.
Proof.
  unfold Qltb. rewrite negb_false_iff. apply Qle_bool_iff.
Qed.

Lemma Qgtb_gt x y : Qgtb x y = true <-> (y < x)%Q.
Proof. apply Qltb_lt. Qed.

Lemma Qgtb_le x y : Qgtb x y = false <-> (x <= y)%Q.
Proof. apply Qltb_ge. Qed.

Lemma Qabsb_Qabs x : (Qabsb x == Qabs x)%Q.
Proof.
  unfold Qabsb. destruct (Qltb x 0) eqn:E.
  - apply Qltb_lt in E. symmetry. apply Qabs_neg. apply Qlt_le_weak, E.
  - apply Qltb_ge in E. symmetry. apply Qabs_pos, E.
Qed.

(** ** Rule engine *)

Section RuleFacts.
Import Rules.

(** A cooked recipe answers [true] exactly when every rule does. *)
Lemma cooked_all (r : Recipe) (track : Track) :
  cooked r track = true <-> forall f, In f (funcs r) -> f track = true.
Proof.
  unfold cooked. apply forallb_forall.
Qed.

(** Adding a rule can only turn a rejection into an acceptance. *)
Lemma cooked_cons (A : Rule) (rest : list Rule) (track : Track) :
  cooked (mkRecipe (A :: rest)) track = A track && cooked (mkRecipe rest) track.
Proof. reflexivity. Qed.

Lemma cooked_pair_false (A B : Rule) (track : Track) :
  B track = false -> cooked (mkRecipe [A; B]) track = false.
Proof.
  intro HB. rewrite cooked_cons, cooked_cons, HB.
  now rewrite andb_false_r.
Qed.

(** What [too_small_span] answers, whenever it answers. *)
Lemma too_small_span_true (span : Q) (track : Track) (la lo : Q) :
  ptp (map lat track) = Some la ->
  ptp (map lon track) = Some lo ->
  too_small_span span track = Some true <-> (span < la)%Q /\ (span < lo)%Q.
Proof.
  intros Hla Hlo. unfold too_small_span. rewrite Hla, Hlo.
  split.
  - intro H. injection H as H. apply andb_true_iff in H.
    destruct H as [H1 H2]. split; now apply Qgtb_gt.
  - intros [H1 H2]. f_equal. apply andb_true_iff.
    split; now apply Qgtb_gt.
Qed.

Lemma track_span_filter_same (span : Q) (track : Track) :
  SearchAgentV1._track_span_filter track span = too_small_span span track.
Proof. reflexivity. Qed.

End RuleFacts.

(** C1.  The recipe of [too_few_obs(n=100)] alone answers [true]
    (reject) on a track of two reports, and the recipe of
    [too_few_obs(n=100)] and [too_few_obs(n=1)] answers [false] on the
    same track: [cooked] takes [all] of the verdicts, so the second
    rule's [false] undoes the rejection. *)
Theorem cooked_drops_rejection :
  Rules.cooked (Rules.mkRecipe [Rules.too_few_obs 100]) two_reports = true
  /\ Rules.too_few_obs 1 two_reports = false
  /\ Rules.cooked (Rules.mkRecipe [Rules.too_few_obs 100; Rules.too_few_obs 1])
       two_reports = false.
Proof. repeat split. Qed.

(** C2.  On a track whose latitude range and longitude range are both
    10, [too_small_span(span=1)] and [_track_span_filter] answer [true]
    (reject), although neither range is at most the span; on a track
    of one point, whose ranges are 0, they answer [false] (accept). *)
Theorem too_small_span_inverted :
  ptp (map lat two_reports) = Some (10 - 0)%Q
  /\ ptp (map lon two_reports) = Some (10 - 0)%Q
  /\ Rules.too_small_span 1 two_reports = Some true
  /\ SearchAgentV1._track_span_filter two_reports 1 = Some true
  /\ Rules.too_small_span 1 [mkAISMessage 111000111 0 0 0 90 10] = Some false.
Proof. repeat split. Qed.

(** ** Segmentation predicate *)

Section GapFacts.
Import SearchAgentV1.
Variables radians cos sin asin sqrt : Q -> Q.


Lemma gap_too_large_false (tgap dgap : Q) (a b : AISMessage) :
  _gap_too_large radians cos sin asin sqrt tgap dgap a b = false
  <-> (total_seconds a b <= tgap)%Q
      /\ (haversine radians cos sin asin sqrt
            (lon a) (lat a) (lon b) (lat b) true <= dgap)%Q.
Proof.
  unfold _gap_too_large.
  rewrite orb_false_iff, !Qgtb_le. reflexivity.
Qed.

End GapFacts.



Example gap_too_large_samples :
  SearchAgentV1._gap_too_large radians cos sin asin sqrt 179 39560
    (mkAISMessage 1 0 0 0 0 10) (mkAISMessage 1 180 6 8 0 10) = true
  /\ SearchAgentV1._gap_too_large radians cos sin asin sqrt 180 39559
       (mkAISMessage 1 0 0 0 0 10) (mkAISMessage 1 180 6 8 0 10) = true
  /\ SearchAgentV1._gap_too_large radians cos sin asin sqrt 180 39560
       (mkAISMessage 1 0 0 0 0 10) (mkAISMessage 1 180 0 0 0 10) = false.
Proof. repeat split. Qed.

(** ** Rate of turn *)

Lemma rot_handler_numeric (float_of_string : string -> option Q)
    (raw : pyval) (r : Q) :
  TargetShip.py_float float_of_string raw = Some r ->
  ((Qabs r == 127)%Q \/ (Qabs r == 128)%Q ->
   TargetShip._rot_handler float_of_string raw = None)
  /\ (~ (Qabs r == 127)%Q -> ~ (Qabs r == 128)%Q ->
      exists v, TargetShip._rot_handler float_of_string raw = Some v
                /\ ((0 < r)%Q -> (v == (r / (4733 # 1000)) ^ 2)%Q)
                /\ ((r < 0)%Q -> (v == - (r / (4733 # 1000)) ^ 2)%Q)
                /\ ((r == 0)%Q -> (v == 0)%Q)).
Proof.
  intro Er. unfold TargetShip._rot_handler. rewrite Er.
  split.
  - intros H.
    assert (E : Qeq_bool (Qabsb r) 127 || Qeq_bool (Qabsb r) 128 = true).
    { apply orb_true_iff. destruct H as [H|H]; [left|right];
        apply Qeq_bool_iff; now rewrite Qabsb_Qabs. }
    now rewrite E.
  - intros H1 H2.
    assert (E : Qeq_bool (Qabsb r) 127 || Qeq_bool (Qabsb r) 128 = false).
    { apply orb_false_iff. split; apply not_true_is_false; intro E;
        apply Qeq_bool_iff in E; rewrite Qabsb_Qabs in E; tauto. }
    rewrite E. eexists. split; [reflexivity|].
    unfold sign. repeat split.
    + intro Hp. apply Qltb_lt in Hp. rewrite Hp. ring.
    + intro Hn. assert (Hp : Qltb 0 r = false).
      { apply Qltb_ge. apply Qlt_le_weak, Hn. }
      apply Qltb_lt in Hn. rewrite Hp, Hn. ring.
    + intro Hz. assert (Hp : Qltb 0 r = false).
      { apply Qltb_ge. rewrite Hz. apply Qle_refl. }
      assert (Hn : Qltb r 0 = false).
      { apply Qltb_ge. rewrite Hz. apply Qle_refl. }
      rewrite Hp, Hn. ring.
Qed.

(** C6.  A raw float [q] or integer [z] of absolute value 127 or 128
    decodes to [None]; any other one decodes to
    [sign(r) * (r / 4.733)^2], with [r] the number itself.  [None]
    decodes to [None]; a string decodes to [None] when [float] rejects
    it and as the number [float] reads from it otherwise. *)
Theorem rot_handler_decoding (float_of_string : string -> option Q) :
  let decodes := fun (r : Q) (res : option Q) =>
    ((Qabs r == 127)%Q \/ (Qabs r == 128)%Q -> res = None)
    /\ (~ (Qabs r == 127)%Q -> ~ (Qabs r == 128)%Q ->
        exists v, res = Some v
                  /\ ((0 < r)%Q -> (v == (r / (4733 # 1000)) ^ 2)%Q)
                  /\ ((r < 0)%Q -> (v == - (r / (4733 # 1000)) ^ 2)%Q)
                  /\ ((r == 0)%Q -> (v == 0)%Q)) in
  (forall q, decodes q (TargetShip._rot_handler float_of_string (PyFloat q)))
  /\ (forall z, decodes (inject_Z z)
                       (TargetShip._rot_handler float_of_string (PyInt z)))
  /\ TargetShip._rot_handler float_of_string PyNone = None
  /\ (forall s,
        match float_of_string s with
        | None => TargetShip._rot_handler float_of_string (PyStr s) = None
        | Some r => decodes r (TargetShip._rot_handler float_of_string (PyStr s))
        end).
Proof.
  intro decodes. split; [|split; [|split]].
  - intro q. apply (rot_handler_numeric float_of_string (PyFloat q) q).
    reflexivity.
  - intro z. apply (rot_handler_numeric float_of_string (PyInt z) (inject_Z z)).
    reflexivity.
  - reflexivity.
  - intro s. destruct (float_of_string s) as [r|] eqn:E.
    + apply (rot_handler_numeric float_of_string (PyStr s) r). exact E.
    + unfold TargetShip._rot_handler. simpl. now rewrite E.
Qed.

(** The decoder on the sentinels, on an ordinary value and on text. *)
Example rot_handler_samples :
  TargetShip._rot_handler float_of_string (PyInt (-128)) = None
  /\ TargetShip._rot_handler float_of_string (PyFloat 127) = None
  /\ TargetShip._rot_handler float_of_string (PyStr "n/a") = None
  /\ TargetShip._rot_handler float_of_string PyNone = None
  /\ TargetShip._rot_handler float_of_string (PyStr "128") = None
  /\ TargetShip._rot_handler float_of_string (PyInt (-4733))
     = Some (-1 * (inject_Z (-4733) / (4733 # 1000)) ^ 2)%Q.
Proof. repeat split. Qed.

(** ** Query anchor *)

(** C10.  For a timestamp string, construction raises [ValueError]
    exactly when [strptime] rejects the string under
    ["%Y-%m-%d %H:%M:%S"]; otherwise the object holds the parsed
    [datetime], [as_array] is [[timestamp, lat, lon]] and [position] is
    [(lat, lon)]. *)
Theorem time_position_validation
    (strptime : string -> string -> option Structs.datetime)
    (s : string) (la lo : Q) :
  (Structs.new_TimePosition strptime (Structs.TsStr s) la lo = Raise ValueError
   <-> strptime s "%Y-%m-%d %H:%M:%S"%string = None)
  /\ match strptime s "%Y-%m-%d %H:%M:%S"%string with
     | Some d =>
         exists tp,
           Structs.new_TimePosition strptime (Structs.TsStr s) la lo = Ok tp
           /\ Structs.tp_timestamp tp = d
           /\ Structs.as_array tp = [Structs.CTime d; Structs.CNum la; Structs.CNum lo]
           /\ Structs.position tp = (la, lo)
     | None => True
     end.
Proof.
  unfold Structs.new_TimePosition, Structs._validate_timestamp.
  change Structs._DATEFORMAT with "%Y-%m-%d %H:%M:%S"%string.
  destruct (strptime s "%Y-%m-%d %H:%M:%S"%string) as [d|].
  - split.
    + split; discriminate.
    + eexists. repeat split.
  - split; [split; reflexivity | exact I].
Qed.

(** The constructor on a well-formed and on a truncated timestamp. *)
Example time_position_samples :
  (exists tp,
     Structs.new_TimePosition Structs.strptime_canonical
       (Structs.TsStr "2021-07-03 12:00:00") (515 # 10) (-3) = Ok tp
     /\ Structs.tp_timestamp tp = Structs.mkDatetime 2021 7 3 12 0 0
     /\ Structs.position tp = ((515 # 10), (-3))%Q)
  /\ Structs.new_TimePosition Structs.strptime_canonical
       (Structs.TsStr "2021-07-03 12:00") (515 # 10) (-3) = Raise ValueError.
Proof. split; [eexists; repeat split | reflexivity]. Qed.

(** ** Interval queries *)

Section IntervalFacts.
Import TargetShip.

Lemma arange_ok (start stop step : Q) :
  ~ (step == 0)%Q ->
  arange start stop step
  = Ok (map (fun i => (start + inject_Z (Z.of_nat i) * step)%Q)
            (seq 0 (Z.to_nat (Qceiling ((stop - start) / step))))).
Proof.
  intro H. unfold arange.
  destruct (Qeq_bool step 0) eqn:E; [|reflexivity].
  apply Qeq_bool_iff in E. contradiction.
Qed.

(** Every sample of [arange] with a positive step lies in
    [[start, stop)]. *)
Lemma arange_sample_bounds (start stop step : Q) (i : nat) :
  (0 < step)%Q ->
  (i < Z.to_nat (Qceiling ((stop - start) / step)))%nat ->
  let t := (start + inject_Z (Z.of_nat i) * step)%Q in
  (start <= t)%Q /\ (t < stop)%Q.
Proof.
  intros Hs Hi t. subst t.
  assert (H0 : (0 <= inject_Z (Z.of_nat i))%Q).
  { change 0%Q with (inject_Z 0). rewrite <- Zle_Qle. lia. }
  split.
  - rewrite <- (Qplus_0_r start) at 1.
    apply Qplus_le_r. apply Qmult_le_0_compat; [exact H0|].
    apply Qlt_le_weak, Hs.
  - assert (Hlt : (inject_Z (Z.of_nat i) < (stop - start) / step)%Q).
    { apply Qle_lt_trans
        with (inject_Z (Qceiling ((stop - start) / step) - 1)).
      - rewrite <- Zle_Qle. lia.
      - apply Qceiling_lt. }
    apply (Qmult_lt_compat_r _ _ step Hs) in Hlt.
    assert (E : ((stop - start) / step * step == stop - start)%Q).
    { field. intro Z0. rewrite Z0 in Hs. exact (Qlt_irrefl _ Hs). }
    rewrite E in Hlt.
    apply (Qplus_lt_r _ _ start) in Hlt.
    setoid_replace (start + (stop - start))%Q with stop in Hlt by ring.
    exact Hlt.
Qed.

(** The out-of-bounds condition is the only source of
    [OutofTimeBoundsError]. *)
Lemma observe_interval_raises (v : TargetVessel) (start stop interval : Q) :
  observe_interval v start stop interval = Raise OutofTimeBoundsError
  <-> (start < inject_Z (timestamp (lower v)))%Q
      \/ (inject_Z (timestamp (upper v)) < stop)%Q.
Proof.
  unfold observe_interval.
  destruct (Qltb start (inject_Z (timestamp (lower v)))) eqn:E1.
  { apply Qltb_lt in E1. tauto. }
  destruct (Qgtb stop (inject_Z (timestamp (upper v)))) eqn:E2.
  { apply Qgtb_gt in E2. tauto. }
  apply Qltb_ge in E1. apply Qgtb_le in E2.
  split.
  - unfold arange. destruct (Qeq_bool interval 0); discriminate.
  - intros [H|H]; exfalso.
    + exact (Qlt_not_le _ _ H E1).
    + exact (Qlt_not_le _ _ H E2).
Qed.

End IntervalFacts.

(** What the two guards do give: [OutofTimeBoundsError] is raised
    exactly when [start] precedes the first timestamp or [end] follows
    the last one, and a query inside the domain with a positive step
    is evaluated inside the domain. *)
Lemma observe_interval_forward
    (v : TargetShip.TargetVessel) (start stop interval : Q) :
  let t_first := inject_Z (timestamp (TargetShip.lower v)) in
  let t_last := inject_Z (timestamp (TargetShip.upper v)) in
  (TargetShip.observe_interval v start stop interval = Raise OutofTimeBoundsError
   <-> (start < t_first)%Q \/ (t_last < stop)%Q)
  /\ ((t_first <= start)%Q -> (stop <= t_last)%Q -> (0 < interval)%Q ->
      exists rows,
        TargetShip.observe_interval v start stop interval = Ok rows
        /\ length rows = Z.to_nat (Qceiling ((stop - start) / interval))
        /\ Forall (fun r => exists t,
                     r = TargetShip.row (TargetShip.interpolation v) t
                     /\ (start <= t)%Q /\ (t < stop)%Q
                     /\ (t_first <= t)%Q /\ (t <= t_last)%Q) rows).
Proof.
  intros t_first t_last. split.
  - apply observe_interval_raises.
  - intros H1 H2 Hs.
    unfold TargetShip.observe_interval.
    fold t_first t_last.
    assert (E1 : Qltb start t_first = false) by now apply Qltb_ge.
    assert (E2 : Qgtb stop t_last = false) by now apply Qgtb_le.
    rewrite E1, E2, arange_ok.
    2:{ intro Z0. rewrite Z0 in Hs. exact (Qlt_irrefl _ Hs). }
    eexists. split; [reflexivity|]. split.
    + now rewrite !length_map, length_seq.
    + apply Forall_forall. intros r Hr.
      apply in_map_iff in Hr. destruct Hr as [t [Ht Hin]].
      apply in_map_iff in Hin. destruct Hin as [i [Hi Hin]].
      apply in_seq in Hin.
      destruct (arange_sample_bounds start stop interval i Hs) as [Ha Hb].
      { lia. }
      exists t. subst t r. repeat split; try assumption.
      * eapply Qle_trans; eassumption.
      * apply Qlt_le_weak. eapply Qlt_le_trans; eassumption.
Qed.

(** C7.  On a track that spans the unix times 0 to 100, the query
    from 105 to 100 in steps of -1 raises nothing although its start
    lies past the last timestamp: it returns five rows, evaluated at
    105, 104, 103, 102 and 101, all outside the domain.  With a step
    of 1 the same bounds raise nothing either and return no row. *)
Theorem observe_interval_past_domain :
  (inject_Z (timestamp (TargetShip.upper vessel_0_100)) < 105)%Q
  /\ TargetShip.observe_interval vessel_0_100 105 100 (-1)
     = Ok (map (TargetShip.row (TargetShip.interpolation vessel_0_100))
               [105 + 0 * -1; 105 + 1 * -1; 105 + 2 * -1; 105 + 3 * -1;
                105 + 4 * -1]%Q)
  /\ TargetShip.observe_interval vessel_0_100 105 100 1 = Ok [].
Proof. repeat split. Qed.

(** ** Neighbour query *)

Section NeighbourFacts.
Import SearchAgent.
Variable np_sqrt : Q -> Q.












End NeighbourFacts.



Example get_neighbors_scenario :
  map fst (SearchAgent.cKDTree_query sqrt (firstn 5 pool) (0, 0)%Q 5
             (Some (20 / 60)%Q))
  = [Some (1 # 10); Some (2 # 10); Some (3 # 10); None; None]
  /\ SearchAgent._get_neighbors sqrt (Some utc) pool 30 5 anchor (Some 20%Q)
     = Ok [SearchAgent.mkRow 211 900 (1 # 10) 0 10 0;
           SearchAgent.mkRow 213 1000 0 (2 # 10) 10 0;
           SearchAgent.mkRow 214 1010 0 (-3 # 10) 10 0].
Proof. split; vm_compute; reflexivity. Qed.


(** ** Speed correction *)

Section CorrectionFacts.
Import SearchAgent.
Variable np_sqrt : Q -> Q.

Lemma speed_target_cases (target : TargetShip) (n : Z) :
  speed_target np_sqrt target n
  = if (2 <=? length (tracks target))%nat then Raise AttributeError else Ok n.
Proof.
  unfold speed_target. destruct (tracks target) as [|a [|b r]]; reflexivity.
Qed.

Lemma speed_targets_cases (values : list TargetShip) (n : Z) :
  speed_targets np_sqrt values n
  = if existsb (fun t => (2 <=? length (tracks t))%nat) values
    then Raise AttributeError else Ok n.
Proof.
  induction values as [|t r IH]; [reflexivity|].
  cbn [speed_targets existsb]. rewrite speed_target_cases.
  destruct (2 <=? length (tracks t))%nat; [reflexivity | exact IH].
Qed.

Lemma position_target_cases (target : TargetShip) (n : Z) :
  position_target target n
  = if (2 <=? length (tracks target))%nat then Raise AttributeError else Ok n.
Proof.
  unfold position_target. destruct (tracks target) as [|a [|b r]]; reflexivity.
Qed.

Lemma position_targets_cases (values : list TargetShip) (n : Z) :
  position_targets values n
  = if existsb (fun t => (2 <=? length (tracks t))%nat) values
    then Raise AttributeError else Ok n.
Proof.
  induction values as [|t r IH]; [reflexivity|].
  cbn [position_targets existsb]. rewrite position_target_cases.
  destruct (2 <=? length (tracks t))%nat; [reflexivity | exact IH].
Qed.

Lemma several_tracks_exists (targets : Targets) :
  existsb (fun t => (2 <=? length (tracks t))%nat) (map snd targets) = true
  <-> exists k v, In (k, v) targets /\ (2 <= length (tracks v))%nat.
Proof.
  rewrite existsb_exists. split.
  - intros [t [Hin H]]. apply in_map_iff in Hin.
    destruct Hin as [[k v] [<- Hin]]. exists k, v.
    split; [exact Hin | now apply Nat.leb_le].
  - intros [k [v [Hin H]]]. exists v. split.
    + apply in_map_iff. exists (k, v). auto.
    + now apply Nat.leb_le.
Qed.

End CorrectionFacts.

(** C4.  On a vessel whose three reports, with speeds 10, 10 and 40
    knots, are in one track, [_speed_correction] visits no pair of
    reports: the targets and the counter come back as they were, the
    third speed is still 40.  On a vessel with two tracks it raises
    [AttributeError].  On the last two reports themselves
    [_time_mean_speed] gives a fifth of a degree per hour, which is
    the 12 nautical miles per hour of the scenario. *)
Theorem speed_correction_visits_no_report :
  SearchAgent._speed_correction sqrt speeding_targets 0 = Ok (speeding_targets, 0)
  /\ map (map (map SOG)) (map (fun kv => SearchAgent.tracks (snd kv)) speeding_targets)
     = [[[10; 10; 40]%Q]]
  /\ SearchAgent._speed_correction sqrt two_track_targets 0 = Raise AttributeError
  /\ exists tms,
       SearchAgent._time_mean_speed sqrt
         (SearchAgent.Report (mkAISMessage 1 3600 (1 # 6) 0 0 10))
         (SearchAgent.Report (mkAISMessage 1 7200 (11 # 30) 0 0 40))
       = Ok (SearchAgent.Finite tms)
       /\ (tms == 1 # 5)%Q /\ (tms * 60 == 12)%Q.
Proof.
  split; [reflexivity|]. split; [reflexivity|]. split; [reflexivity|].
  eexists. split; [reflexivity|]. split; reflexivity.
Qed.

(** ** Track assembly *)

Section AssemblyFacts.
Import SearchAgent.

Lemma last_opt_snoc {A : Type} (l : list A) (x : A) :
  last_opt (l ++ [x]) = Some x.
Proof.
  destruct l as [|a r]; simpl; [reflexivity|].
  f_equal. apply last_last.
Qed.

Lemma last_cons {A : Type} (l : list A) (a d : A) :
  last (a :: l) d = last l a.
Proof.
  revert a d. induction l as [|b r IH]; intros a d; [reflexivity|].
  change (last (a :: b :: r) d) with (last (b :: r) d).
  now rewrite !IH.
Qed.

Lemma last_opt_cons {A : Type} (l : list A) (a b : A) :
  last_opt (a :: b :: l) = last_opt (b :: l).
Proof.
  unfold last_opt. f_equal. apply last_cons.
Qed.

(** Appending a later message keeps a track strictly increasing. *)
Lemma increasing_snoc (track : Track) (m : AISMessage) :
  Sorted Z.lt (map timestamp track) ->
  (forall l, last_opt track = Some l -> timestamp l < timestamp m) ->
  Sorted Z.lt (map timestamp (track ++ [m])).
Proof.
  induction track as [|a r IH]; intros Hs Hl.
  - repeat constructor.
  - inversion Hs as [|? ? Hs' Hd]; subst.
    destruct r as [|b r'].
    + simpl. constructor; [repeat constructor|].
      constructor. apply Hl. reflexivity.
    + rewrite <- app_comm_cons, map_cons. constructor.
      * apply IH; [exact Hs'|]. intros l E. apply Hl.
        now rewrite last_opt_cons.
      * simpl. constructor. inversion Hd; subst. assumption.
Qed.

Lemma insert_by_sorted {A : Type} (key : A -> Z) (x : A) (l : list A) :
  Sorted Z.le (map key l) -> Sorted Z.le (map key (insert_by key x l)).
Proof.
  induction l as [|y r IH]; intro Hs; simpl.
  - repeat constructor.
  - destruct (key x <=? key y) eqn:E.
    + simpl. constructor; [exact Hs|]. constructor. lia.
    + inversion Hs as [|? ? Hs' Hd]; subst. simpl.
      constructor; [now apply IH|].
      destruct r as [|z r']; simpl.
      * constructor. lia.
      * destruct (key x <=? key z); simpl; constructor; [lia|].
        inversion Hd; subst. assumption.
Qed.

Lemma sort_by_sorted {A : Type} (key : A -> Z) (l : list A) :
  Sorted Z.le (map key (sort_by key l)).
Proof.
  induction l as [|x r IH]; simpl; [constructor|].
  now apply insert_by_sorted.
Qed.

(** The chunk loop keeps its track strictly increasing. *)
Lemma impl_loop_increasing (MMSI : Z) (rows : list Row) :
  Sorted Z.le (map r_timestamp rows) ->
  forall (first : bool) (track : Track),
    (first = true -> track = []) ->
    Sorted Z.lt (map timestamp track) ->
    (forall l r, last_opt track = Some l -> In r rows ->
                 timestamp l <= r_timestamp r) ->
    Sorted Z.lt (map timestamp (impl_loop MMSI first track rows)).
Proof.
  induction rows as [|r rest IH]; intros Hs first track Hf Ht Hl; simpl.
  - exact Ht.
  - assert (Hs' : Sorted Z.le (map r_timestamp rest)).
    { inversion Hs; assumption. }
    assert (Hle : forall r', In r' rest -> r_timestamp r <= r_timestamp r').
    { apply Sorted_StronglySorted in Hs; [|intros x y z; lia].
      inversion Hs as [|? ? _ Hall]; subst.
      intros r' Hin. rewrite Forall_forall in Hall. apply Hall.
      now apply in_map. }
    assert (Happ : (forall l, last_opt track = Some l ->
                              timestamp l < r_timestamp r) ->
                   Sorted Z.lt
                     (map timestamp
                        (impl_loop MMSI false (track ++ [msg_of_row MMSI r]) rest))).
    { intro Hlt. apply IH; [exact Hs' | discriminate | |].
      - apply increasing_snoc; [exact Ht | exact Hlt].
      - intros l r' E Hin. rewrite last_opt_snoc in E.
        injection E as <-. simpl. now apply Hle. }
    destruct first.
    + rewrite (Hf eq_refl) in *. apply Happ. discriminate.
    + destruct (last_opt track) as [l|] eqn:El.
      * simpl. destruct (r_timestamp r =? timestamp l) eqn:E.
        -- apply IH; [exact Hs' | discriminate | exact Ht |].
           intros l' r' E' Hin. rewrite El in E'. injection E' as <-.
           apply Z.eqb_eq in E. rewrite <- E. now apply Hle.
        -- apply Happ. intros l' E'. injection E' as <-.
           apply Z.eqb_neq in E.
           specialize (Hl l r eq_refl (or_introl eq_refl)). lia.
      * apply Happ. discriminate.
Qed.

(** Within one chunk, [_impl_construct_target_vessel] builds a track
    of strictly increasing timestamps. *)
Lemma impl_construct_increasing (dyn : list Row) (targets : Targets) :
  _impl_construct_target_vessel dyn = Ok targets ->
  forall k v track,
    In (k, v) targets -> In track (tracks v) ->
    Sorted Z.lt (map timestamp track).
Proof.
  unfold _impl_construct_target_vessel.
  destruct dyn as [|r0 rest]; [discriminate|].
  intros E k v track Hin Htr. injection E as <-.
  destruct Hin as [Hin|[]]. injection Hin as <- <-.
  destruct Htr as [<-|[]].
  apply impl_loop_increasing.
  - exact (sort_by_sorted r_timestamp (r0 :: rest)).
  - reflexivity.
  - constructor.
  - discriminate.
Qed.

Lemma length_remove_first (x : AISMessage) (l : Track) :
  (length (remove_first x l) <= length l)%nat.
Proof.
  induction l as [|y r IH]; simpl; [lia|].
  destruct (msg_eqb y x); simpl; lia.
Qed.

Section Loop.
Variable is_split_point : AISMessage -> AISMessage -> bool.

(** The split loop stops by running off the list: fuel beyond the
    length of the track changes nothing. *)
Lemma split_loop_fuel (fuel : nat) :
  forall (track : Track) (m : AISMessage) (i s : nat) (it : list Track),
    (length track <= fuel + S i)%nat ->
    split_loop is_split_point (S fuel) track m i s it
    = split_loop is_split_point fuel track m i s it.
Proof.
  induction fuel as [|f IH]; intros track m i s it Hlen.
  - cbn [split_loop].
    destruct (nth_error track (S i)) eqn:E; [|reflexivity].
    exfalso. assert (H : nth_error track (S i) <> None) by congruence.
    apply nth_error_Some in H. lia.
  - cbn [split_loop] in *.
    destruct (nth_error track (S i)) as [m1|]; [|reflexivity].
    destruct (timestamp m =? timestamp m1).
    + apply IH. pose proof (length_remove_first m1 track). lia.
    + destruct (is_split_point m m1); apply IH; lia.
Qed.

Lemma split_loop_enough (extra : nat) (track : Track) (m : AISMessage)
    (it : list Track) :
  split_loop is_split_point (length track + extra) track m 0 0 it
  = split_loop is_split_point (length track) track m 0 0 it.
Proof.
  induction extra as [|e IH].
  - now rewrite Nat.add_0_r.
  - rewrite Nat.add_succ_r, split_loop_fuel; [exact IH | lia].
Qed.

(** Segments are recorded at split points only: a track without a
    split point leaves [_itracks] as it was. *)
Lemma split_loop_no_split (fuel : nat) :
  (forall a b, is_split_point a b = false) ->
  forall (track : Track) (m : AISMessage) (i s : nat) (it : list Track),
    snd (split_loop is_split_point fuel track m i s it) = it.
Proof.
  intro Hno. induction fuel as [|f IH]; intros track m i s it;
    cbn [split_loop].
  - reflexivity.
  - destruct (nth_error track (S i)) as [m1|]; [|reflexivity].
    destruct (timestamp m =? timestamp m1); [apply IH|].
    rewrite Hno. apply IH.
Qed.

Lemma split_track_no_split (track : Track) :
  (forall a b, is_split_point a b = false) ->
  snd (split_track is_split_point track) = [].
Proof.
  intro Hno. unfold split_track.
  destruct (sort_by timestamp track); [reflexivity|].
  now apply split_loop_no_split.
Qed.

End Loop.

End AssemblyFacts.

(** C3.  A chunk of five reports without duplicate timestamps, split
    once after the second report: the chunk constructor keeps all
    five, and [_determine_split_points] returns the two reports before
    the split point only; the three after it are in no segment.  A
    chunk of three reports without any split point leaves the vessel
    with no segment at all, and it is removed. *)
Theorem split_points_drop_tail :
  SearchAgent._impl_construct_target_vessel gapped_chunk
  = Ok [(111000111,
         SearchAgent.mkTargetShip None 111000111
           [[message 0 0; message 10 1; message 5000 2; message 5010 3;
             message 5020 4]])]
  /\ SearchAgent._mp_construct_target_vessels time_gap [gapped_chunk]
     = Ok [(111000111,
            SearchAgent.mkTargetShip None 111000111
              [[message 0 0; message 10 1]])]
  /\ SearchAgent._mp_construct_target_vessels time_gap [steady_chunk] = Ok [].
Proof. repeat split. Qed.

(** C8.  In the single-process path two reports of one vessel for the
    same second both stay in the segment, which then repeats a
    timestamp.  In the multi-process path two chunks that overlap in
    time are joined, sorted and scanned, and the segment that comes out
    holds two reports for the second 20. *)
Theorem duplicates_survive_assembly :
  SearchAgent._sp_construct_target_vessels time_gap doubled_reports
    (SearchAgent.mkTimePosition 5 0 0) true
  = Ok [(111000111,
         SearchAgent.mkTargetShip (Some 5) 111000111
           [[message 0 0; message 10 1; message 10 2; message 20 3]])]
  /\ SearchAgent._mp_construct_target_vessels time_gap overlapping_chunks
     = Ok [(111000111,
            SearchAgent.mkTargetShip None 111000111
              [[message 0 0; message 10 1; message 20 2; message 20 4;
                message 30 5]])].
Proof. repeat split. Qed.

(** * Further properties of the code *)

(** ** Recipes *)

(** A recipe without rules rejects every track, and a recipe of two
    groups of rules rejects exactly when both groups do. *)
Theorem cooked_app (r1 r2 : list Rules.Rule) (track : Track) :
  Rules.cooked (Rules.mkRecipe []) track = true
  /\ Rules.cooked (Rules.mkRecipe (r1 ++ r2)) track
     = Rules.cooked (Rules.mkRecipe r1) track
       && Rules.cooked (Rules.mkRecipe r2) track.
Proof.
  split; [reflexivity|]. unfold Rules.cooked. simpl. apply forallb_app.
Qed.

Lemma cooked_raising_answers (funcs : list Rules.RaisingRule) (track : Track) :
  (forall f, In f funcs -> exists b, f track = Ok b) ->
  Rules.cooked_raising funcs track
  = Ok (forallb (fun f => match f track with Ok b => b | Raise _ => false end)
                funcs).
Proof.
  induction funcs as [|f r IH]; intro H; [reflexivity|].
  cbn [Rules.cooked_raising forallb].
  destruct (H f (or_introl eq_refl)) as [b E]. rewrite E.
  destruct b; [|reflexivity].
  apply IH. intros g Hg. apply H. now right.
Qed.

Lemma forallb_permutation {A : Type} (p : A -> bool) (l l' : list A) :
  Permutation l l' -> forallb p l = forallb p l'.
Proof.
  intro H. induction H as [|f l l' _ IH|f g l|l l' l'' _ IH1 _ IH2]; simpl.
  - reflexivity.
  - now rewrite IH.
  - now rewrite !andb_assoc, (andb_comm (p g)).
  - now rewrite IH1.
Qed.

(** The verdict of a recipe does not depend on the order of its rules
    as long as every rule answers on the track.  With a rule that
    raises it does: on the empty track [too_few_obs] with [n = 0]
    before [too_small_span] gives [False], and the two the other way
    round raise [ValueError]. *)
Theorem cooked_permutation (r1 r2 : list Rules.RaisingRule) (track : Track) :
  (Permutation r1 r2 ->
   (forall f, In f r1 -> exists b, f track = Ok b) ->
   Rules.cooked_raising r1 track = Rules.cooked_raising r2 track)
  /\ Rules.cooked_raising [Rules.too_few_obs_rule 0; Rules.too_small_span_rule 1] []
     = Ok false
  /\ Rules.cooked_raising [Rules.too_small_span_rule 1; Rules.too_few_obs_rule 0] []
     = Raise ValueError.
Proof.
  split; [|split; reflexivity].
  intros P H.
  rewrite (cooked_raising_answers r1 track H).
  rewrite (cooked_raising_answers r2 track).
  - f_equal. now apply forallb_permutation.
  - intros f Hf. apply H. apply Permutation_sym in P.
    exact (Permutation_in f P Hf).
Qed.

Lemma cooked_permutation_witness :
  Rules.cooked_raising [Rules.too_few_obs_rule 100; Rules.too_small_span_rule 1]
    two_reports
  = Rules.cooked_raising [Rules.too_small_span_rule 1; Rules.too_few_obs_rule 100]
      two_reports.
Proof.
  apply (proj1 (cooked_permutation
                  [Rules.too_few_obs_rule 100; Rules.too_small_span_rule 1]
                  [Rules.too_small_span_rule 1; Rules.too_few_obs_rule 100]
                  two_reports)).
  - apply perm_swap.
  - intros f [<-|[<-|[]]]; eexists; reflexivity.
Defined.

(** ** Spans *)

Section SpanFacts.

Lemma Qmaxb_ge_l (x y : Q) : (x <= Qmaxb x y)%Q.
Proof.
  unfold Qmaxb. destruct (Qltb x y) eqn:E.
  - apply Qltb_lt in E. now apply Qlt_le_weak.
  - apply Qle_refl.
Qed.

Lemma Qmaxb_ge_r (x y : Q) : (y <= Qmaxb x y)%Q.
Proof.
  unfold Qmaxb. destruct (Qltb x y) eqn:E.
  - apply Qle_refl.
  - now apply Qltb_ge in E.
Qed.

Lemma Qminb_le_l (x y : Q) : (Qminb x y <= x)%Q.
Proof.
  unfold Qminb. destruct (Qltb y x) eqn:E.
  - apply Qltb_lt in E. now apply Qlt_le_weak.
  - apply Qle_refl.
Qed.

Lemma Qminb_le_r (x y : Q) : (Qminb x y <= y)%Q.
Proof.
  unfold Qminb. destruct (Qltb y x) eqn:E.
  - apply Qle_refl.
  - now apply Qltb_ge in E.
Qed.

Lemma fold_max_ge (r : list Q) :
  forall x y, In y (x :: r) -> (y <= fold_left Qmaxb r x)%Q.
Proof.
  induction r as [|z r IH]; intros x y Hin; simpl.
  - destruct Hin as [<-|[]]. apply Qle_refl.
  - destruct Hin as [E|[E|Hin]].
    + subst y. eapply Qle_trans; [apply (Qmaxb_ge_l x z)|]. apply IH. now left.
    + subst y. eapply Qle_trans; [apply (Qmaxb_ge_r x z)|]. apply IH. now left.
    + apply IH. now right.
Qed.

Lemma fold_min_le (r : list Q) :
  forall x y, In y (x :: r) -> (fold_left Qminb r x <= y)%Q.
Proof.
  induction r as [|z r IH]; intros x y Hin; simpl.
  - destruct Hin as [<-|[]]. apply Qle_refl.
  - destruct Hin as [E|[E|Hin]].
    + subst y. eapply Qle_trans; [|apply (Qminb_le_l x z)]. apply IH. now left.
    + subst y. eapply Qle_trans; [|apply (Qminb_le_r x z)]. apply IH. now left.
    + apply IH. now right.
Qed.

Lemma fold_max_in (r : list Q) : forall x, In (fold_left Qmaxb r x) (x :: r).
Proof.
  induction r as [|z r IH]; intro x; simpl.
  - now left.
  - destruct (IH (Qmaxb x z)) as [E|Hin].
    + rewrite <- E. unfold Qmaxb. destruct (Qltb x z); auto.
    + right. now right.
Qed.

Lemma fold_min_in (r : list Q) : forall x, In (fold_left Qminb r x) (x :: r).
Proof.
  induction r as [|z r IH]; intro x; simpl.
  - now left.
  - destruct (IH (Qminb x z)) as [E|Hin].
    + rewrite <- E. unfold Qminb. destruct (Qltb z x); auto.
    + right. now right.
Qed.

(** [np.ptp] is a difference of two elements and bounds every other
    difference. *)
Lemma ptp_spread (xs : list Q) (p : Q) :
  ptp xs = Some p ->
  (exists hi lo, In hi xs /\ In lo xs /\ p = (hi - lo)%Q)
  /\ (forall x y, In x xs -> In y xs -> (x - y <= p)%Q).
Proof.
  destruct xs as [|x r]; [discriminate|].
  intro E. injection E as <-. split.
  - exists (fold_left Qmaxb r x), (fold_left Qminb r x).
    split; [apply fold_max_in|]. split; [apply fold_min_in | reflexivity].
  - intros a b Ha Hb. unfold Qminus.
    apply Qplus_le_compat; [now apply fold_max_ge|].
    apply Qopp_le_compat. now apply fold_min_le.
Qed.

Lemma exceeds_span (f : AISMessage -> Q) (track : Track) (span p : Q) :
  ptp (map f track) = Some p ->
  (span < p)%Q
  <-> exists a b, In a track /\ In b track /\ (span < f a - f b)%Q.
Proof.
  intro E. destruct (ptp_spread _ _ E) as [[hi [lo [Hhi [Hlo Ep]]]] Hall].
  split.
  - intro H. apply in_map_iff in Hhi. destruct Hhi as [a [<- Ha]].
    apply in_map_iff in Hlo. destruct Hlo as [b [<- Hb]].
    exists a, b. subst p. auto.
  - intros [a [b [Ha [Hb H]]]].
    eapply Qlt_le_trans; [exact H|]. apply Hall; now apply in_map.
Qed.

End SpanFacts.

(** [too_small_span] raises exactly on the empty track; otherwise it
    answers [True] exactly when some two reports are more than [span]
    apart in latitude and some two are more than [span] apart in
    longitude. *)
Theorem too_small_span_spread (span : Q) (track : Track) :
  (Rules.too_small_span span track = None <-> track = [])
  /\ (Rules.too_small_span span track = Some true
      <-> (exists a b, In a track /\ In b track /\ (span < lat a - lat b)%Q)
          /\ (exists c d, In c track /\ In d track /\ (span < lon c - lon d)%Q)).
Proof.
  destruct track as [|m r].
  - split; [split; reflexivity|]. split; [discriminate|].
    intros [[a [_ [[] _]]] _].
  - destruct (ptp (map lat (m :: r))) as [la|] eqn:Ela; [|discriminate].
    destruct (ptp (map lon (m :: r))) as [lo|] eqn:Elo; [|discriminate].
    split.
    + unfold Rules.too_small_span. rewrite Ela, Elo. split; discriminate.
    + rewrite (too_small_span_true span (m :: r) la lo Ela Elo).
      rewrite (exceeds_span lat (m :: r) span la Ela).
      rewrite (exceeds_span lon (m :: r) span lo Elo). reflexivity.
Qed.

(** ** Rate of turn, angles and units *)

Lemma sign_opp (q : Q) : (sign (- q) == - sign q)%Q.
Proof.
  unfold sign.
  destruct (Qltb 0 q) eqn:Ep; destruct (Qltb q 0) eqn:En.
  - apply Qltb_lt in Ep. apply Qltb_lt in En.
    exfalso. exact (Qlt_irrefl _ (Qlt_trans _ _ _ Ep En)).
  - assert (E1 : Qltb 0 (- q) = false).
    { apply Qltb_ge. apply Qltb_lt in Ep.
      apply Qlt_le_weak. apply (Qopp_lt_compat 0 q) in Ep. exact Ep. }
    assert (E2 : Qltb (- q) 0 = true).
    { apply Qltb_lt. apply Qltb_lt in Ep.
      apply (Qopp_lt_compat 0 q) in Ep. exact Ep. }
    rewrite E1, E2. reflexivity.
  - assert (E1 : Qltb 0 (- q) = true).
    { apply Qltb_lt. apply Qltb_lt in En.
      apply (Qopp_lt_compat q 0) in En. exact En. }
    rewrite E1. reflexivity.
  - assert (E1 : Qltb 0 (- q) = false).
    { apply Qltb_ge. apply Qltb_ge in En.
      apply (Qopp_le_compat 0 q) in En. exact En. }
    assert (E2 : Qltb (- q) 0 = false).
    { apply Qltb_ge. apply Qltb_ge in Ep.
      apply (Qopp_le_compat q 0) in Ep. exact Ep. }
    rewrite E1, E2. reflexivity.
Qed.

Lemma sentinel_opp (q : Q) :
  Qeq_bool (Qabsb (- q)) 127 || Qeq_bool (Qabsb (- q)) 128
  = Qeq_bool (Qabsb q) 127 || Qeq_bool (Qabsb q) 128.
Proof.
  assert (H : forall c, Qeq_bool (Qabsb (- q)) c = Qeq_bool (Qabsb q) c).
  { intro c. apply eq_true_iff_eq. rewrite !Qeq_bool_iff, !Qabsb_Qabs.
    now rewrite Qabs_opp. }
  now rewrite !H.
Qed.

(** Decoding is odd: a raw rate of turn and its negative are both
    unavailable, or decode to opposite rates. *)
Theorem rot_handler_odd (float_of_string : string -> option Q) (q : Q) :
  match TargetShip._rot_handler float_of_string (PyFloat q),
        TargetShip._rot_handler float_of_string (PyFloat (- q)) with
  | Some a, Some b => (b == - a)%Q
  | None, None => True
  | _, _ => False
  end.
Proof.
  unfold TargetShip._rot_handler. simpl. rewrite sentinel_opp.
  destruct (Qeq_bool (Qabsb q) 127 || Qeq_bool (Qabsb q) 128); [exact I|].
  rewrite sign_opp. field.
Qed.

Lemma Qfloor_unique (x : Q) (n : Z) :
  (inject_Z n <= x)%Q -> (x < inject_Z (n + 1))%Q -> Qfloor x = n.
Proof.
  intros H1 H2.
  assert (L : (n <= Qfloor x)%Z).
  { rewrite <- (Qfloor_Z n). now apply Qfloor_resp_le. }
  assert (U : (Qfloor x < n + 1)%Z).
  { rewrite Zlt_Qlt. eapply Qle_lt_trans; [apply Qfloor_le | exact H2]. }
  lia.
Qed.

Lemma mod360_range (x : Q) :
  (0 <= TargetShip.mod360 x)%Q /\ (TargetShip.mod360 x < 360)%Q.
Proof.
  unfold TargetShip.mod360.
  pose proof (Qfloor_le (x / 360)) as L.
  pose proof (Qlt_floor (x / 360)) as U.
  rewrite inject_Z_plus in U.
  apply (Qmult_le_compat_r _ _ 360) in L; [|discriminate].
  apply (Qmult_lt_compat_r _ _ 360) in U; [|reflexivity].
  assert (E : (x / 360 * 360 == x)%Q) by (field).
  rewrite E in L, U.
  split.
  - apply (Qplus_le_l _ _ (360 * inject_Z (Qfloor (x / 360)))).
    ring_simplify. rewrite Qmult_comm. exact L.
  - apply (Qplus_lt_l _ _ (360 * inject_Z (Qfloor (x / 360)))).
    ring_simplify.
    setoid_replace (360 * inject_Z (Qfloor (x / 360)) + 360)%Q
      with ((inject_Z (Qfloor (x / 360)) + inject_Z 1) * 360)%Q by ring.
    exact U.
Qed.

Lemma mod360_period (x : Q) :
  (TargetShip.mod360 (x + 360) == TargetShip.mod360 x)%Q.
Proof.
  unfold TargetShip.mod360.
  assert (F : Qfloor ((x + 360) / 360) = (Qfloor (x / 360) + 1)%Z).
  { apply Qfloor_unique.
    - rewrite inject_Z_plus.
      setoid_replace ((x + 360) / 360)%Q with (x / 360 + inject_Z 1)%Q by field.
      apply Qplus_le_l. apply Qfloor_le.
    - rewrite !inject_Z_plus.
      setoid_replace ((x + 360) / 360)%Q with (x / 360 + inject_Z 1)%Q by field.
      apply Qplus_lt_l. pose proof (Qlt_floor (x / 360)) as U.
      rewrite inject_Z_plus in U. exact U. }
  rewrite F, inject_Z_plus. ring.
Qed.

Lemma mod360_compat (x y : Q) :
  (x == y)%Q -> (TargetShip.mod360 x == TargetShip.mod360 y)%Q.
Proof.
  intro E. unfold TargetShip.mod360.
  assert (F : Qfloor (x / 360) = Qfloor (y / 360)).
  { apply Qfloor_comp. apply Qmult_comp; [exact E | reflexivity]. }
  rewrite F. apply Qplus_comp; [exact E | reflexivity].
Qed.

(** [_dtr] maps every angle into the half-open turn from [-pi] to
    [pi], has period 360 degrees, and [_dtr2] is its negative. *)
Theorem dtr_range (pi angle : Q) :
  (0 < pi)%Q ->
  (- pi <= TargetShip._dtr pi angle)%Q
  /\ (TargetShip._dtr pi angle < pi)%Q
  /\ (TargetShip._dtr pi (angle + 360) == TargetShip._dtr pi angle)%Q
  /\ (TargetShip._dtr2 pi angle == - TargetShip._dtr pi angle)%Q.
Proof.
  intro Hpi. unfold TargetShip._dtr, TargetShip._dtr2.
  destruct (mod360_range (angle - 180)) as [L U].
  set (o := TargetShip.mod360 (angle - 180)) in *.
  repeat split.
  - setoid_replace (- pi)%Q with ((0 - 180) / 180 * pi)%Q by field.
    apply Qmult_le_compat_r; [|now apply Qlt_le_weak].
    apply Qmult_le_compat_r; [|discriminate].
    now apply Qplus_le_l.
  - setoid_replace pi with ((360 - 180) / 180 * pi)%Q at 2 by field.
    apply Qmult_lt_compat_r; [exact Hpi|].
    apply Qmult_lt_compat_r; [reflexivity|].
    now apply Qplus_lt_l.
  - assert (E : (TargetShip.mod360 (angle + 360 - 180) == o)%Q).
    { apply Qeq_trans with (TargetShip.mod360 (angle - 180 + 360)).
      - apply mod360_compat. ring.
      - apply mod360_period. }
    rewrite E. reflexivity.
  - field.
Qed.

Lemma dtr_range_witness :
  (- (355 # 113) <= TargetShip._dtr (355 # 113) 270)%Q
  /\ (TargetShip._dtr (355 # 113) 270 < 355 # 113)%Q.
Proof.
  destruct (dtr_range (355 # 113) 270) as [L [U _]]; [reflexivity|].
  split; [exact L | exact U].
Defined.

(** Raising the thresholds never turns a pair into a split point. *)
Theorem gap_too_large_antitone
    (radians cos sin asin sqrt : Q -> Q) (tgap dgap tgap' dgap' : Q)
    (a b : AISMessage) :
  (tgap <= tgap')%Q -> (dgap <= dgap')%Q ->
  SearchAgentV1._gap_too_large radians cos sin asin sqrt tgap dgap a b = false ->
  SearchAgentV1._gap_too_large radians cos sin asin sqrt tgap' dgap' a b = false.
Proof.
  intros Ht Hd H. apply gap_too_large_false in H. destruct H as [H1 H2].
  apply gap_too_large_false. split; eapply Qle_trans; eassumption.
Qed.

Lemma gap_too_large_antitone_witness :
  SearchAgentV1._gap_too_large radians cos sin asin sqrt 600 50000
    (mkAISMessage 1 0 0 0 0 10) (mkAISMessage 1 180 6 8 0 10) = false.
Proof.
  apply (gap_too_large_antitone radians cos sin asin sqrt 180 39560 600 50000
           (mkAISMessage 1 0 0 0 0 10) (mkAISMessage 1 180 6 8 0 10));
    [discriminate | discriminate | reflexivity].
Defined.

(** ** Observations *)

Lemma observe_interval_ok (v : TargetShip.TargetVessel)
    (start stop interval : Q) (rows : list (list Q)) :
  TargetShip.observe_interval v start stop interval = Ok rows ->
  rows = map (TargetShip.row (TargetShip.interpolation v))
           (map (fun i => (start + inject_Z (Z.of_nat i) * interval)%Q)
                (seq 0 (Z.to_nat (Qceiling ((stop - start) / interval))))).
Proof.
  unfold TargetShip.observe_interval, TargetShip.arange.
  destruct (Qltb start _); [discriminate|].
  destruct (Qgtb stop _); [discriminate|].
  destruct (Qeq_bool interval 0); [discriminate|].
  intro E. now injection E as <-.
Qed.

(** Every row of an interval query has seven columns; the course is
    wrapped into [[0, 360)]; the last column is the sample time, which
    advances by [interval] from [start]. *)
Theorem observe_interval_rows (v : TargetShip.TargetVessel)
    (start stop interval : Q) (rows : list (list Q)) :
  TargetShip.observe_interval v start stop interval = Ok rows ->
  length rows = Z.to_nat (Qceiling ((stop - start) / interval))
  /\ forall i r, nth_error rows i = Some r ->
       length r = 7%nat
       /\ (0 <= nth 2 r 0)%Q /\ (nth 2 r 0 < 360)%Q
       /\ (nth 2 r 0
           == TargetShip.mod360
                (TargetShip.iCOG (TargetShip.interpolation v) (nth 6 r 0)))%Q
       /\ nth 6 r 0%Q = (start + inject_Z (Z.of_nat i) * interval)%Q.
Proof.
  intro E. apply observe_interval_ok in E. subst rows. split.
  - now rewrite !length_map, length_seq.
  - intros i r Hr. rewrite map_map in Hr.
    rewrite nth_error_map in Hr.
    destruct (nth_error (seq 0 (Z.to_nat (Qceiling ((stop - start) / interval))))
                i) as [j|] eqn:Hj; [|discriminate].
    simpl in Hr. injection Hr as <-.
    assert (Ej : j = i).
    { pose proof (nth_error_nth _ _ 0%nat Hj) as N.
      assert (Hi : (i < length (seq 0 (Z.to_nat
                     (Qceiling ((stop - start) / interval)))))%nat).
      { apply nth_error_Some. congruence. }
      rewrite length_seq in Hi. rewrite seq_nth in N by exact Hi. lia. }
    subst j. simpl.
    destruct (mod360_range
                (TargetShip.iCOG (TargetShip.interpolation v)
                   (start + inject_Z (Z.of_nat i) * interval))) as [L U].
    repeat split; try assumption; try reflexivity.
Qed.

Lemma observe_interval_rows_witness :
  exists rows,
    TargetShip.observe_interval vessel_0_100 10 60 10 = Ok rows
    /\ length rows = 5%nat.
Proof.
  exists (map (TargetShip.row (TargetShip.interpolation vessel_0_100))
              [10; 20; 30; 40; 50]%Q).
  assert (E : TargetShip.observe_interval vessel_0_100 10 60 10
              = Ok (map (TargetShip.row (TargetShip.interpolation vessel_0_100))
                        [10; 20; 30; 40; 50]%Q)).
  { vm_compute. reflexivity. }
  split; [exact E|].
  destruct (observe_interval_rows vessel_0_100 10 60 10 _ E) as [L _].
  exact L.
Defined.

(** ** Matching two trajectories *)

Section MatcherFacts.
Import TargetShip.

Lemma start_bounds (v1 v2 : TargetVessel) :
  timestamp (lower v1) <= _start v1 v2 /\ timestamp (lower v2) <= _start v1 v2.
Proof.
  unfold _start.
  destruct (timestamp (lower v1) <? timestamp (lower v2)) eqn:E;
    [apply Z.ltb_lt in E | apply Z.ltb_ge in E]; lia.
Qed.

Lemma end_bounds (v1 v2 : TargetVessel) :
  _end v1 v2 <= timestamp (upper v1) /\ _end v1 v2 <= timestamp (upper v2).
Proof.
  unfold _end.
  destruct (timestamp (upper v1) >? timestamp (upper v2)) eqn:E.
  - apply Z.gtb_lt in E. lia.
  - rewrite Z.gtb_ltb in E. apply Z.ltb_ge in E. lia.
Qed.

Lemma observe_in_bounds (v : TargetVessel) (start stop : Z) (interval : Q) :
  timestamp (lower v) <= start -> stop <= timestamp (upper v) ->
  observe_interval v (inject_Z start) (inject_Z stop) interval
  = match arange (inject_Z start) (inject_Z stop) interval with
    | Raise e => Raise e
    | Ok timestamps => Ok (map (row (interpolation v)) timestamps)
    end.
Proof.
  intros H1 H2. unfold observe_interval.
  assert (E1 : Qltb (inject_Z start) (inject_Z (timestamp (lower v))) = false).
  { apply Qltb_ge. now rewrite <- Zle_Qle. }
  assert (E2 : Qgtb (inject_Z stop) (inject_Z (timestamp (upper v))) = false).
  { apply Qgtb_le. now rewrite <- Zle_Qle. }
  now rewrite E1, E2.
Qed.

End MatcherFacts.

(** A matcher never runs into the out-of-bounds error of the interval
    query: it raises [ValueError] exactly when the two trajectories
    are disjoint in time, and otherwise, for a step other than zero,
    returns for both vessels the same number of rows at the same
    sample times. *)
Theorem matcher_within_bounds (v1 v2 : TargetShip.TargetVessel) (interval : Q) :
  let m := TargetShip.new_TrajectoryMatcher v1 v2 in
  TargetShip.matcher_observe_interval m interval <> Raise OutofTimeBoundsError
  /\ (TargetShip.matcher_observe_interval m interval = Raise ValueError
      <-> TargetShip._disjoint v1 v2 = true)
  /\ (TargetShip._disjoint v1 v2 = false -> ~ (interval == 0)%Q ->
      exists o1 o2,
        TargetShip.matcher_observe_interval m interval = Ok (o1, o2)
        /\ length o1 = length o2
        /\ map (fun r => nth 6 r 0%Q) o1 = map (fun r => nth 6 r 0%Q) o2).
Proof.
  intro m. subst m. unfold TargetShip.new_TrajectoryMatcher.
  destruct (TargetShip._disjoint v1 v2) eqn:D; simpl.
  - split; [discriminate|]. split; [tauto | discriminate].
  - destruct (start_bounds v1 v2) as [S1 S2].
    destruct (end_bounds v1 v2) as [E1 E2].
    rewrite (observe_in_bounds v1 _ _ interval S1 E1).
    rewrite (observe_in_bounds v2 _ _ interval S2 E2).
    unfold TargetShip.arange.
    destruct (Qeq_bool interval 0) eqn:Z0.
    + split; [discriminate|]. split; [split; discriminate|].
      intros _ H. exfalso. apply H. now apply Qeq_bool_iff.
    + split; [discriminate|]. split; [split; discriminate|].
      intros _ _. eexists. eexists. split; [reflexivity|].
      split.
      * now rewrite !length_map.
      * rewrite !map_map. reflexivity.
Qed.

Lemma matcher_within_bounds_witness :
  exists o1 o2,
    TargetShip.matcher_observe_interval
      (TargetShip.new_TrajectoryMatcher vessel_0_100 vessel_0_100) 25
    = Ok (o1, o2) /\ length o1 = length o2.
Proof.
  destruct (matcher_within_bounds vessel_0_100 vessel_0_100 25)
    as [_ [_ H]].
  destruct H as [o1 [o2 [E [L _]]]]; [reflexivity | discriminate |].
  exists o1, o2. split; [exact E | exact L].
Defined.

(** When the two trajectories are not disjoint and each shell is in
    time order, the common window is in time order and lies inside
    both shells. *)
Theorem matcher_window (v1 v2 : TargetShip.TargetVessel) :
  timestamp (TargetShip.lower v1) <= timestamp (TargetShip.upper v1) ->
  timestamp (TargetShip.lower v2) <= timestamp (TargetShip.upper v2) ->
  TargetShip._disjoint v1 v2 = false ->
  TargetShip._start v1 v2 <= TargetShip._end v1 v2
  /\ TargetShip._start v1 v2
     = Z.max (timestamp (TargetShip.lower v1)) (timestamp (TargetShip.lower v2))
  /\ TargetShip._end v1 v2
     = Z.min (timestamp (TargetShip.upper v1)) (timestamp (TargetShip.upper v2)).
Proof.
  intros H1 H2 D. unfold TargetShip._disjoint in D.
  apply orb_false_iff in D. destruct D as [D1 D2].
  apply Z.ltb_ge in D1. apply Z.ltb_ge in D2.
  unfold TargetShip._start, TargetShip._end.
  destruct (timestamp (TargetShip.lower v1) <? timestamp (TargetShip.lower v2)) eqn:A;
    [apply Z.ltb_lt in A | apply Z.ltb_ge in A];
    (destruct (timestamp (TargetShip.upper v1) >? timestamp (TargetShip.upper v2)) eqn:B;
     [apply Z.gtb_lt in B | rewrite Z.gtb_ltb in B; apply Z.ltb_ge in B]);
    lia.
Qed.

Lemma matcher_window_witness :
  TargetShip._start vessel_0_100 vessel_0_100
  <= TargetShip._end vessel_0_100 vessel_0_100.
Proof.
  destruct (matcher_window vessel_0_100 vessel_0_100) as [H _];
    [discriminate | discriminate | reflexivity | exact H].
Defined.

(** ** The single-process assembler *)

Section ChainFacts.
Context {A : Type}.
Variable R : A -> A -> Prop.

Lemma last_opt_inv (l : list A) (x : A) :
  last_opt l = Some x -> exists init, l = init ++ [x].
Proof.
  destruct l as [|a r]; [discriminate|].
  intro E. injection E as <-.
  exists (removelast (a :: r)).
  rewrite <- (last_cons r a a).
  apply app_removelast_last. discriminate.
Qed.

Lemma last_opt_some (l : list A) : l <> [] -> exists x, last_opt l = Some x.
Proof.
  destruct l as [|a r]; [congruence|]. intros _. eexists. reflexivity.
Qed.

(** A chain stays a chain when an element related to its last one is
    appended. *)
Lemma chain_snoc (l : list A) (x : A) :
  Sorted R l -> (forall y, last_opt l = Some y -> R y x) ->
  Sorted R (l ++ [x]).
Proof.
  induction l as [|a r IH]; intros Hs Hl.
  - repeat constructor.
  - inversion Hs as [|? ? Hs' Hd]; subst.
    destruct r as [|b r'].
    + simpl. constructor; [repeat constructor|].
      constructor. apply Hl. reflexivity.
    + rewrite <- app_comm_cons. constructor.
      * apply IH; [exact Hs'|]. intros y E. apply Hl.
        now rewrite last_opt_cons.
      * simpl. constructor. inversion Hd; subst. assumption.
Qed.

Lemma chain_snoc_inv (l : list A) (x : A) :
  Sorted R (l ++ [x]) ->
  Sorted R l /\ (forall y, last_opt l = Some y -> R y x).
Proof.
  induction l as [|a r IH]; intro Hs.
  - split; [constructor | discriminate].
  - rewrite <- app_comm_cons in Hs.
    inversion Hs as [|? ? Hs' Hd]; subst.
    destruct (IH Hs') as [Hr Hl]. split.
    + constructor; [exact Hr|].
      destruct r as [|b r']; [constructor|].
      simpl in Hd. inversion Hd; subst. now constructor.
    + intros y E. destruct r as [|b r'].
      * injection E as <-. simpl in Hd. now inversion Hd.
      * apply Hl. now rewrite <- (last_opt_cons r' a b).
Qed.

End ChainFacts.

Section DictFacts.
Import SearchAgent.

Lemma dict_get_set (d : Targets) (k k' : Z) (v : TargetShip) :
  dict_get (dict_set d k v) k'
  = if k =? k' then Some v else dict_get d k'.
Proof.
  induction d as [|[j w] r IH]; simpl.
  - reflexivity.
  - destruct (j =? k) eqn:E; simpl.
    + apply Z.eqb_eq in E. subst j. destruct (k =? k'); reflexivity.
    + destruct (j =? k') eqn:E'.
      * apply Z.eqb_eq in E'. subst j.
        rewrite Z.eqb_sym in E. now rewrite E.
      * exact IH.
Qed.

Lemma dict_get_In (d : Targets) (k : Z) (v : TargetShip) :
  dict_get d k = Some v -> In (k, v) d.
Proof.
  induction d as [|[j w] r IH]; simpl; [discriminate|].
  destruct (j =? k) eqn:E.
  - apply Z.eqb_eq in E. subst j. intro H. injection H as <-. now left.
  - intro H. right. now apply IH.
Qed.

Lemma In_dict_get (d : Targets) (k : Z) (v : TargetShip) :
  In (k, v) d -> exists w, dict_get d k = Some w.
Proof.
  induction d as [|[j w] r IH]; simpl; [intros []|].
  intros [E|Hin].
  - injection E as -> ->. rewrite Z.eqb_refl. eauto.
  - destruct (j =? k); eauto.
Qed.

Lemma append_last_snoc (trs : list Track) (t : Track) (msg : AISMessage) :
  append_last (trs ++ [t]) msg = trs ++ [t ++ [msg]].
Proof.
  induction trs as [|a r IH]; [reflexivity|].
  destruct r as [|b r']; [reflexivity|].
  change (append_last ((a :: b :: r') ++ [t]) msg)
    with (a :: append_last ((b :: r') ++ [t]) msg).
  now rewrite IH.
Qed.

End DictFacts.

Section SingleProcessFacts.
Import SearchAgent.
Variable is_split_point : AISMessage -> AISMessage -> bool.

Lemma sp_step_assembled (tpos : TimePosition) (targets : Targets)
    (seen : list Row) (r : Row) :
  assembled is_split_point targets seen ->
  exists targets',
    sp_step is_split_point tpos targets r = Ok targets'
    /\ assembled is_split_point targets' (seen ++ [r]).
Proof.
  intro Inv. unfold sp_step.
  pose proof (Inv (r_mmsi r)) as Hk.
  destruct (dict_get targets (r_mmsi r)) as [v|] eqn:G.
  - destruct Hk as [Hne [Hall [Hcat [Hin Hbr]]]].
    destruct (last_opt_some _ Hne) as [tr Etr]. rewrite Etr.
    destruct (last_opt_inv _ _ Etr) as [init Einit].
    assert (Htr : tr <> []).
    { rewrite Forall_forall in Hall. apply Hall.
      rewrite Einit. apply in_or_app. right. now left. }
    destruct (last_opt_some _ Htr) as [l El]. rewrite El.
    eexists. split; [reflexivity|].
    intro k. rewrite dict_get_set.
    destruct (r_mmsi r =? k) eqn:E.
    + apply Z.eqb_eq in E. subst k.
      rewrite filter_app, map_app. simpl. rewrite Z.eqb_refl. simpl.
      rewrite <- Hcat.
      destruct (is_split_point l (msg_of_row (r_mmsi r) r)) eqn:S.
      * rewrite append_last_snoc. simpl.
        split; [now destruct (tracks v)|].
        split; [apply Forall_app; split; [exact Hall | repeat constructor; discriminate]|].
        split; [now rewrite concat_app; simpl|].
        split; [apply Forall_app; split; [exact Hin | repeat constructor]|].
        apply chain_snoc; [exact Hbr|].
        intros t Et. rewrite Etr in Et. injection Et as <-.
        exists l, (msg_of_row (r_mmsi r) r). repeat split; assumption.
      * rewrite Einit, append_last_snoc in *.
        split; [now destruct init|].
        apply Forall_app in Hall. destruct Hall as [Hall1 _].
        apply Forall_app in Hin. destruct Hin as [Hin1 Hin2].
        split; [apply Forall_app; split; [exact Hall1|];
                repeat constructor; now destruct tr|].
        split; [rewrite !concat_app; simpl; now rewrite !app_nil_r, app_assoc|].
        split.
        -- apply Forall_app. split; [exact Hin1|]. repeat constructor.
           apply chain_snoc; [now inversion Hin2|].
           intros y Ey. rewrite El in Ey. injection Ey as <-. exact S.
        -- apply chain_snoc_inv in Hbr. destruct Hbr as [Hb1 Hb2].
           apply chain_snoc; [exact Hb1|].
           intros t Et. destruct (Hb2 t Et) as [a [b [Ha [Hb Hs]]]].
           exists a, b. repeat split; try assumption.
           destruct tr; [congruence | exact Hb].
    + pose proof (Inv k) as Hk'.
      rewrite filter_app. simpl.
      rewrite E. simpl. rewrite app_nil_r. exact Hk'.
  - eexists. split; [reflexivity|].
    intro k. rewrite dict_get_set.
    destruct (r_mmsi r =? k) eqn:E.
    + apply Z.eqb_eq in E. subst k.
      rewrite filter_app, Hk. simpl. rewrite Z.eqb_refl. simpl.
      split; [discriminate|].
      split; [repeat constructor; discriminate|].
      split; [reflexivity|].
      split; repeat constructor.
    + pose proof (Inv k) as Hk'.
      rewrite filter_app. simpl.
      rewrite E. simpl. rewrite app_nil_r. exact Hk'.
Qed.

Lemma sp_loop_assembled (tpos : TimePosition) (rows : list Row) :
  forall (targets : Targets) (seen : list Row),
    assembled is_split_point targets seen ->
    exists targets',
      sp_loop is_split_point tpos targets rows = Ok targets'
      /\ assembled is_split_point targets' (seen ++ rows).
Proof.
  induction rows as [|r rest IH]; intros targets seen Inv; simpl.
  - exists targets. rewrite app_nil_r. auto.
  - destruct (sp_step_assembled tpos targets seen r Inv) as [t' [E Inv']].
    rewrite E. destruct (IH t' (seen ++ [r]) Inv') as [t'' [E' Inv'']].
    exists t''. rewrite <- app_assoc in Inv''. auto.
Qed.

Lemma assembled_empty : assembled is_split_point [] [].
Proof. intro k. reflexivity. Qed.

End SingleProcessFacts.

(** The row loop of the single-process assembler never raises, and
    loses no report: a vessel id has an entry exactly when it has a
    row; the entry has at least one track, and its tracks, one after
    the other, are the reports of that vessel in the order of the
    rows. *)
Theorem sp_loop_keeps_reports
    (is_split_point : AISMessage -> AISMessage -> bool)
    (tpos : SearchAgent.TimePosition) (rows : list SearchAgent.Row) :
  exists targets,
    SearchAgent.sp_loop is_split_point tpos [] rows = Ok targets
    /\ forall k,
         match SearchAgent.dict_get targets k with
         | Some v =>
             SearchAgent.tracks v <> []
             /\ (exists r, In r rows /\ SearchAgent.r_mmsi r = k)
             /\ concat (SearchAgent.tracks v)
                = map (SearchAgent.msg_of_row k)
                      (filter (fun r => SearchAgent.r_mmsi r =? k) rows)
         | None => forall r, In r rows -> SearchAgent.r_mmsi r <> k
         end.
Proof.
  destruct (sp_loop_assembled is_split_point tpos rows [] []
              (assembled_empty is_split_point)) as [targets [E Inv]].
  exists targets. split; [exact E|].
  intro k. specialize (Inv k). simpl in Inv.
  destruct (SearchAgent.dict_get targets k) as [v|].
  - destruct Inv as [Hne [Hall [Hcat _]]].
    split; [exact Hne|]. split; [|exact Hcat].
    destruct (filter (fun r => SearchAgent.r_mmsi r =? k) rows) as [|r0 rest] eqn:F.
    + exfalso. destruct (SearchAgent.tracks v) as [|t trs]; [now apply Hne|].
      inversion Hall as [|? ? Ht _]; subst.
      destruct t; [now apply Ht | discriminate].
    + assert (H : In r0 (filter (fun r => SearchAgent.r_mmsi r =? k) rows))
        by (rewrite F; now left).
      apply filter_In in H. destruct H as [Hin Hk].
      exists r0. split; [exact Hin | now apply Z.eqb_eq].
  - intros r Hin Hk.
    assert (H : In r (filter (fun r => SearchAgent.r_mmsi r =? k) rows)).
    { apply filter_In. split; [exact Hin | now apply Z.eqb_eq]. }
    rewrite Inv in H. exact H.
Qed.

(** The tracks the row loop builds are the maximal runs: no track is
    empty, no two neighbours inside a track are a split point, and the
    last report of a track and the first of the next always are. *)
Theorem sp_loop_segments
    (is_split_point : AISMessage -> AISMessage -> bool)
    (tpos : SearchAgent.TimePosition) (rows : list SearchAgent.Row)
    (targets : SearchAgent.Targets) (k : Z) (v : SearchAgent.TargetShip) :
  SearchAgent.sp_loop is_split_point tpos [] rows = Ok targets ->
  SearchAgent.dict_get targets k = Some v ->
  Forall (fun t : Track => t <> []) (SearchAgent.tracks v)
  /\ Forall (Sorted (fun a b => is_split_point a b = false)) (SearchAgent.tracks v)
  /\ Sorted (fun t t' : Track =>
               exists a b, last_opt t = Some a /\ hd_error t' = Some b
                           /\ is_split_point a b = true)
            (SearchAgent.tracks v).
Proof.
  intros E G.
  destruct (sp_loop_assembled is_split_point tpos rows [] []
              (assembled_empty is_split_point)) as [targets' [E' Inv]].
  rewrite E in E'. injection E' as <-.
  specialize (Inv k). rewrite G in Inv.
  destruct Inv as [_ [H1 [_ [H2 H3]]]]. auto.
Qed.

Lemma sp_loop_segments_witness :
  exists v,
    SearchAgent.dict_get
      [(111000111,
        SearchAgent.mkTargetShip (Some 5) 111000111
          [[message 0 0; message 10 1]; [message 5000 2; message 5010 3;
                                         message 5020 4]])]
      111000111 = Some v
    /\ Forall (fun t : Track => t <> []) (SearchAgent.tracks v).
Proof.
  eexists. split; [reflexivity|].
  destruct (sp_loop_segments time_gap (SearchAgent.mkTimePosition 5 0 0)
              gapped_chunk _ 111000111 _ eq_refl eq_refl) as [H _].
  exact H.
Defined.

Section FilterFacts.
Import SearchAgent.

Lemma sort_by_In {A : Type} (key : A -> Z) (l : list A) (x : A) :
  In x (sort_by key l) <-> In x l.
Proof.
  assert (Hins : forall y l', In x (insert_by key y l') <-> x = y \/ In x l').
  { intros y l'. induction l' as [|z r IH]; simpl.
    - intuition.
    - destruct (key y <=? key z); simpl; [intuition|].
      rewrite IH. intuition. }
  induction l as [|y r IH]; simpl; [reflexivity|].
  rewrite Hins, IH. intuition.
Qed.

Lemma overlapping_filter (tpos : TimePosition) (trs : list Track) :
  Forall (fun t : Track => t <> []) trs ->
  overlapping trs tpos = Ok (filter (straddles tpos) trs).
Proof.
  induction 1 as [|t r Ht Hr IH]; simpl; [reflexivity|].
  rewrite IH. destruct t as [|m t']; [congruence|]. reflexivity.
Qed.

Lemma filter_overlapping_map (tpos : TimePosition) (targets : Targets) :
  Forall (fun kv : Z * TargetShip =>
            Forall (fun t : Track => t <> []) (tracks (snd kv))) targets ->
  _filter_overlapping targets tpos
  = Ok (map (fun kv : Z * TargetShip =>
               (fst kv,
                set_tracks (snd kv) (filter (straddles tpos) (tracks (snd kv)))))
            targets).
Proof.
  induction 1 as [|[k v] r Hv Hr IH]; simpl; [reflexivity|].
  simpl in Hv. now rewrite (overlapping_filter tpos _ Hv), IH.
Qed.

Lemma remove_single_obs_long (targets : Targets) :
  Forall (fun kv : Z * TargetShip =>
            Forall (fun t : Track => (2 <= length t)%nat) (tracks (snd kv)))
         (_remove_single_obs targets).
Proof.
  unfold _remove_single_obs. apply Forall_forall. intros kv Hin.
  apply in_map_iff in Hin. destruct Hin as [[k v] [<- _]]. simpl.
  apply Forall_forall. intros t Ht. apply filter_In in Ht.
  destruct Ht as [_ Ht].
  destruct t as [|a [|b t']]; simpl in *; try discriminate; lia.
Qed.

End FilterFacts.

(** The single-process assembler never raises.  Every vessel of the
    input has an entry in the result, with or without a track; every
    track returned has at least two reports and, when [overlap] is
    set, starts before and ends after the time of the anchor. *)
Theorem sp_construct_segments
    (is_split_point : AISMessage -> AISMessage -> bool)
    (neighbors : list SearchAgent.Row) (tpos : SearchAgent.TimePosition)
    (overlap : bool) :
  exists targets,
    SearchAgent._sp_construct_target_vessels is_split_point neighbors tpos overlap
    = Ok targets
    /\ (forall r, In r neighbors ->
                  exists v, In (SearchAgent.r_mmsi r, v) targets)
    /\ (forall k v track,
          In (k, v) targets -> In track (SearchAgent.tracks v) ->
          (2 <= length track)%nat
          /\ (overlap = true ->
              exists a b,
                hd_error track = Some a /\ last_opt track = Some b
                /\ timestamp a < SearchAgent.tp_timestamp tpos
                /\ SearchAgent.tp_timestamp tpos < timestamp b)).
Proof.
  unfold SearchAgent._sp_construct_target_vessels.
  set (rows := sort_by SearchAgent.r_timestamp neighbors).
  destruct (sp_loop_assembled is_split_point tpos rows [] []
              (assembled_empty is_split_point)) as [targets [E Inv]].
  rewrite E. simpl in Inv.
  pose proof (remove_single_obs_long targets) as Long.
  set (kept := SearchAgent._remove_single_obs targets) in *.
  assert (Keys : forall r, In r neighbors ->
                           exists v, In (SearchAgent.r_mmsi r, v) kept).
  { intros r Hin. specialize (Inv (SearchAgent.r_mmsi r)).
    destruct (SearchAgent.dict_get targets (SearchAgent.r_mmsi r)) as [v|] eqn:G.
    - apply dict_get_In in G. eexists. unfold kept, SearchAgent._remove_single_obs.
      apply in_map_iff. exists (SearchAgent.r_mmsi r, v). split; [reflexivity | exact G].
    - exfalso.
      assert (H : In r (filter (fun r' => SearchAgent.r_mmsi r' =? SearchAgent.r_mmsi r)
                               rows)).
      { apply filter_In. split; [now apply sort_by_In | apply Z.eqb_refl]. }
      rewrite Inv in H. exact H. }
  destruct overlap.
  - rewrite filter_overlapping_map.
    2:{ eapply Forall_impl; [|exact Long]. intros kv H.
        eapply Forall_impl; [|exact H]. intros t Ht.
        destruct t; [simpl in Ht; lia | discriminate]. }
    eexists. split; [reflexivity|]. split.
    + intros r Hin. destruct (Keys r Hin) as [v Hv].
      eexists. apply in_map_iff. exists (SearchAgent.r_mmsi r, v).
      split; [reflexivity | exact Hv].
    + intros k v track Hin Ht. apply in_map_iff in Hin.
      destruct Hin as [[k' v'] [Ekv Hin]]. injection Ekv as <- <-.
      simpl in Ht. apply filter_In in Ht. destruct Ht as [Ht Hs].
      rewrite Forall_forall in Long. specialize (Long _ Hin). simpl in Long.
      rewrite Forall_forall in Long. split; [now apply Long|].
      intros _. destruct track as [|m t]; [discriminate|].
      simpl in Hs. apply andb_true_iff in Hs. destruct Hs as [H1 H2].
      exists m, (last t m). repeat split; [now apply Z.ltb_lt | now apply Z.ltb_lt].
  - exists kept. split; [reflexivity|]. split; [exact Keys|].
    intros k v track Hin Ht.
    rewrite Forall_forall in Long. specialize (Long _ Hin). simpl in Long.
    rewrite Forall_forall in Long. split; [now apply Long | discriminate].
Qed.

(** ** The chunk constructor *)

Lemma impl_construct_increasing_witness :
  Sorted Z.lt
    (map timestamp
       (SearchAgent.impl_loop 111000111 true []
          (sort_by SearchAgent.r_timestamp doubled_reports))).
Proof.
  apply (impl_construct_increasing doubled_reports _ eq_refl 111000111
           (SearchAgent.mkTargetShip None 111000111
              [SearchAgent.impl_loop 111000111 true []
                 (sort_by SearchAgent.r_timestamp doubled_reports)])).
  - left. reflexivity.
  - left. reflexivity.
Defined.

Section ChunkFacts.
Import SearchAgent.

Lemma impl_loop_keeps (MMSI : Z) (rows : list Row) :
  forall (first : bool) (track : Track) (m : AISMessage),
    In m track -> In m (impl_loop MMSI first track rows).
Proof.
  induction rows as [|r rest IH]; intros first track m Hin; simpl.
  - exact Hin.
  - destruct first.
    + apply IH. apply in_or_app. now left.
    + destruct (last_opt track) as [l|].
      * destruct (r_timestamp r =? timestamp l).
        -- now apply IH.
        -- apply IH. apply in_or_app. now left.
      * apply IH. apply in_or_app. now left.
Qed.

Lemma impl_loop_covers (MMSI : Z) (rows : list Row) :
  forall (first : bool) (track : Track) (r : Row),
    (first = true -> track = []) ->
    In r rows ->
    In (r_timestamp r) (map timestamp (impl_loop MMSI first track rows)).
Proof.
  induction rows as [|r0 rest IH]; intros first track r Hf Hin; simpl.
  - destruct Hin.
  - assert (Happ : forall f,
               In (r_timestamp r0)
                  (map timestamp
                     (impl_loop MMSI f (track ++ [msg_of_row MMSI r0]) rest))).
    { intro f. apply in_map_iff. exists (msg_of_row MMSI r0).
      split; [reflexivity|]. apply impl_loop_keeps.
      apply in_or_app. right. now left. }
    destruct Hin as [<-|Hin].
    + destruct first; [apply Happ|].
      destruct (last_opt track) as [l|] eqn:El; [|apply Happ].
      destruct (r_timestamp r0 =? timestamp l) eqn:E;
        [|apply Happ].
      apply Z.eqb_eq in E. rewrite E.
      apply in_map. apply impl_loop_keeps.
      destruct (last_opt_inv _ _ El) as [init ->].
      apply in_or_app. right. now left.
    + destruct first; [apply IH; [discriminate | exact Hin]|].
      destruct (last_opt track) as [l|].
      * destruct (r_timestamp r0 =? timestamp l);
          apply IH; try discriminate; exact Hin.
      * apply IH; [discriminate | exact Hin].
Qed.

Lemma impl_loop_origin (MMSI : Z) (rows : list Row) :
  forall (first : bool) (track : Track) (m : AISMessage),
    In m (impl_loop MMSI first track rows) ->
    In m track \/ exists r, In r rows /\ m = msg_of_row MMSI r.
Proof.
  induction rows as [|r0 rest IH]; intros first track m Hin; simpl in Hin.
  - now left.
  - assert (Happ : forall f,
               In m (impl_loop MMSI f (track ++ [msg_of_row MMSI r0]) rest) ->
               In m track \/ exists r, In r (r0 :: rest) /\ m = msg_of_row MMSI r).
    { intros f H. destruct (IH _ _ _ H) as [H'|[r [Hr ->]]].
      - apply in_app_or in H'. destruct H' as [H'|[<-|[]]].
        + now left.
        + right. exists r0. split; [now left | reflexivity].
      - right. exists r. split; [now right | reflexivity]. }
    destruct first; [now apply Happ in Hin|].
    destruct (last_opt track) as [l|]; [|now apply Happ in Hin].
    destruct (r_timestamp r0 =? timestamp l);
      [|now apply Happ in Hin].
    destruct (IH _ _ _ Hin) as [H'|[r [Hr ->]]]; [now left|].
    right. exists r. split; [now right | reflexivity].
Qed.

End ChunkFacts.

(** The chunk constructor raises exactly on an empty frame.  On any
    other frame it returns one vessel, keyed by the MMSI of the first
    row, with one track; every timestamp of the frame occurs in the
    track, and every message of the track is a row of the frame under
    that MMSI. *)
Theorem impl_construct_covers (dyn : list SearchAgent.Row) :
  match dyn with
  | [] => SearchAgent._impl_construct_target_vessel dyn = Raise IndexError
  | r0 :: _ =>
      exists track,
        SearchAgent._impl_construct_target_vessel dyn
        = Ok [(SearchAgent.r_mmsi r0,
               SearchAgent.mkTargetShip None (SearchAgent.r_mmsi r0) [track])]
        /\ (forall r, In r dyn ->
                      In (SearchAgent.r_timestamp r) (map timestamp track))
        /\ (forall m, In m track ->
                      exists r, In r dyn
                                /\ m = SearchAgent.msg_of_row (SearchAgent.r_mmsi r0) r)
  end.
Proof.
  destruct dyn as [|r0 rest]; [reflexivity|].
  eexists. split; [reflexivity|]. split.
  - intros r Hin. apply impl_loop_covers; [reflexivity|].
    now apply (sort_by_In SearchAgent.r_timestamp (r0 :: rest)).
  - intros m Hin. apply impl_loop_origin in Hin.
    destruct Hin as [[]|[r [Hr ->]]].
    exists r. split; [|reflexivity].
    now apply (sort_by_In SearchAgent.r_timestamp (r0 :: rest)) in Hr.
Qed.

(** ** Joining chunks *)

Section JoinFacts.
Import SearchAgent.

Lemma increasing_app (l1 l2 : Track) :
  Sorted Z.lt (map timestamp l1) ->
  Sorted Z.lt (map timestamp l2) ->
  (forall a b, last_opt l1 = Some a -> hd_error l2 = Some b ->
               timestamp a < timestamp b) ->
  Sorted Z.lt (map timestamp (l1 ++ l2)).
Proof.
  intros H1 H2. revert l1 H1.
  induction l2 as [|b r IH]; intros l1 H1 Hl.
  - now rewrite app_nil_r.
  - replace (l1 ++ b :: r) with ((l1 ++ [b]) ++ r)
      by (now rewrite <- app_assoc).
    apply IH.
    + now inversion H2.
    + apply increasing_snoc; [exact H1|].
      intros l E. now apply Hl.
    + intros a c Ea Ec. rewrite last_opt_snoc in Ea. injection Ea as <-.
      destruct r as [|c' r']; [discriminate|]. injection Ec as <-.
      inversion H2 as [|? ? _ Hd]; subst. simpl in Hd. now inversion Hd.
Qed.

End JoinFacts.

(** Joining a second chunk of a vessel whose track starts no earlier
    than the first one ends keeps the timestamps strictly increasing:
    the first report of the second chunk is dropped when it repeats
    the last timestamp of the first, and nothing else is. *)
Theorem join_one_increasing
    (targets : SearchAgent.Targets) (k : Z) (cur tgt : SearchAgent.TargetShip)
    (t0 u0 : Track) (rest rest' : list Track) (l f : AISMessage) :
  SearchAgent.dict_get targets k = Some cur ->
  SearchAgent.tracks cur = t0 :: rest ->
  SearchAgent.tracks tgt = u0 :: rest' ->
  last_opt t0 = Some l -> hd_error u0 = Some f ->
  timestamp l <= timestamp f ->
  Sorted Z.lt (map timestamp t0) ->
  Sorted Z.lt (map timestamp u0) ->
  exists targets' v joined,
    SearchAgent.join_one targets (k, tgt) = Ok targets'
    /\ SearchAgent.dict_get targets' k = Some v
    /\ SearchAgent.tracks v = joined :: rest
    /\ joined = t0 ++ (if timestamp l =? timestamp f then tl u0 else u0)
    /\ Sorted Z.lt (map timestamp joined)
    /\ (forall z, In z (map timestamp joined)
                  <-> In z (map timestamp t0) \/ In z (map timestamp u0)).
Proof.
  intros G Ecur Etgt El Ef Hle H0 Hu.
  destruct u0 as [|f' u0']; [discriminate|]. injection Ef as ->.
  unfold SearchAgent.join_one. rewrite G, Ecur, Etgt, El.
  eexists. eexists. eexists.
  split; [reflexivity|].
  split; [rewrite dict_get_set, Z.eqb_refl; reflexivity|].
  split; [reflexivity|].
  split; [reflexivity|].
  destruct (timestamp l =? timestamp f) eqn:E; simpl.
  - apply Z.eqb_eq in E. split.
    + apply increasing_app; [exact H0 | now inversion Hu|].
      intros a b Ea Eb. rewrite El in Ea. injection Ea as <-.
      destruct u0' as [|g u0'']; [discriminate|]. injection Eb as <-.
      inversion Hu as [|? ? _ Hd]; subst. simpl in Hd. inversion Hd; subst. lia.
    + intro z. rewrite map_app, in_app_iff. simpl. split; [tauto|].
      intros [H|[H|H]]; [now left | | now right].
      left. rewrite <- H, <- E. apply in_map.
      destruct (last_opt_inv _ _ El) as [init ->].
      apply in_or_app. right. now left.
  - apply Z.eqb_neq in E. split.
    + apply increasing_app; [exact H0 | exact Hu|].
      intros a b Ea Eb. rewrite El in Ea. injection Ea as <-.
      injection Eb as <-. lia.
    + intro z. rewrite map_app, in_app_iff. reflexivity.
Qed.

Lemma join_one_increasing_witness :
  exists targets' v joined,
    SearchAgent.join_one
      [(7, SearchAgent.mkTargetShip None 7 [[message 0 0; message 10 1]])]
      (7, SearchAgent.mkTargetShip None 7 [[message 10 2; message 20 3]])
    = Ok targets'
    /\ SearchAgent.dict_get targets' 7 = Some v
    /\ SearchAgent.tracks v = joined :: []
    /\ Sorted Z.lt (map timestamp joined).
Proof.
  destruct (join_one_increasing
              [(7, SearchAgent.mkTargetShip None 7 [[message 0 0; message 10 1]])]
              7
              (SearchAgent.mkTargetShip None 7 [[message 0 0; message 10 1]])
              (SearchAgent.mkTargetShip None 7 [[message 10 2; message 20 3]])
              [message 0 0; message 10 1] [message 10 2; message 20 3]
              [] [] (message 10 1) (message 10 2))
    as [targets' [v [joined [E [G [T [_ [S _]]]]]]]];
    try reflexivity.
  - repeat constructor.
  - repeat constructor.
  - exists targets', v, joined. repeat split; assumption.
Defined.

(** ** Split points *)

Section SplitFacts.
Import SearchAgent.
Variable is_split_point : AISMessage -> AISMessage -> bool.

Lemma sort_by_increasing (track : Track) :
  Sorted Z.lt (map timestamp track) -> sort_by timestamp track = track.
Proof.
  induction track as [|x r IH]; intro Hs; [reflexivity|].
  inversion Hs as [|? ? Hs' Hd]; subst. simpl. rewrite (IH Hs').
  destruct r as [|y r']; [reflexivity|].
  simpl in Hd. inversion Hd; subst. simpl.
  assert (E : (timestamp x <=? timestamp y) = true) by (apply Z.leb_le; lia).
  now rewrite E.
Qed.

Lemma increasing_nth (track : Track) :
  Sorted Z.lt (map timestamp track) ->
  forall i j a b,
    (i < j)%nat -> nth_error track i = Some a -> nth_error track j = Some b ->
    timestamp a < timestamp b.
Proof.
  intro Hs. apply Sorted_StronglySorted in Hs; [|intros x y z; lia].
  induction track as [|x r IH]; intros i j a b Hij Ha Hb.
  - destruct i; discriminate.
  - simpl in Hs. inversion Hs as [|? ? Hs' Hall]; subst.
    destruct j as [|j']; [lia|]. simpl in Hb.
    destruct i as [|i'].
    + injection Ha as <-. rewrite Forall_forall in Hall. apply Hall.
      apply in_map. eapply nth_error_In. exact Hb.
    + simpl in Ha. apply (IH Hs' i' j'); [lia | assumption | assumption].
Qed.

Lemma last_opt_nth {A : Type} (l : list A) (m : A) :
  last_opt l = Some m -> nth_error l (length l - 1) = Some m.
Proof.
  intro E. destruct (last_opt_inv _ _ E) as [init ->].
  rewrite length_app. simpl.
  replace (length init + 1 - 1)%nat with (length init) by lia.
  rewrite nth_error_app2 by lia. now rewrite Nat.sub_diag.
Qed.

(** On a track without repeated timestamps the loop leaves the list
    alone and records the reports before the last split point. *)
Lemma split_loop_prefix (track : Track) :
  Sorted Z.lt (map timestamp track) ->
  forall (fuel i s : nat) (m : AISMessage) (it : list Track),
    nth_error track i = Some m ->
    (s <= i)%nat ->
    concat it = firstn s track ->
    exists s' it',
      split_loop is_split_point fuel track m i s it = (track, it')
      /\ (s' < length track)%nat
      /\ concat it' = firstn s' track.
Proof.
  intro Hs. induction fuel as [|f IH]; intros i s m it Hm Hsi Hcat;
    cbn [split_loop].
  - exists s, it. repeat split; [|exact Hcat].
    assert (H : nth_error track i <> None) by congruence.
    apply nth_error_Some in H. lia.
  - destruct (nth_error track (S i)) as [m1|] eqn:E1.
    + assert (Hlt : timestamp m < timestamp m1).
      { apply (increasing_nth track Hs i (S i)); [lia | assumption | assumption]. }
      assert (Ene : (timestamp m =? timestamp m1) = false)
        by (apply Z.eqb_neq; lia).
      rewrite Ene.
      destruct (is_split_point m m1).
      * apply IH; [exact E1 | lia|].
        rewrite concat_app, Hcat. simpl. rewrite app_nil_r.
        unfold slice.
        transitivity (firstn s (firstn (S i) track)
                      ++ skipn s (firstn (S i) track)).
        -- f_equal. rewrite firstn_firstn. f_equal. lia.
        -- apply firstn_skipn.
      * apply IH; [exact E1 | lia | exact Hcat].
    + exists s, it. repeat split; [|exact Hcat].
      assert (H : nth_error track i <> None) by congruence.
      apply nth_error_Some in H. lia.
Qed.

Lemma firstn_snoc {A : Type} (l : list A) :
  forall (b : nat) (x : A),
    nth_error l b = Some x -> firstn (S b) l = firstn b l ++ [x].
Proof.
  induction l as [|a r IH]; intros [|b] x H; simpl in *; try discriminate.
  - injection H as <-. reflexivity.
  - f_equal. now apply IH.
Qed.

Lemma slice_snoc (l : Track) (a b : nat) (x : AISMessage) :
  nth_error l b = Some x -> (a <= b)%nat ->
  slice l a (S b) = slice l a b ++ [x].
Proof.
  intros H Hab. unfold slice. rewrite (firstn_snoc l b x H), skipn_app.
  assert (Hb : (b < length l)%nat) by (apply nth_error_Some; congruence).
  assert (El : length (firstn b l) = b) by (rewrite length_firstn; lia).
  rewrite El. replace (a - b)%nat with 0%nat by lia. reflexivity.
Qed.

Lemma slice_one (l : Track) (b : nat) (x : AISMessage) :
  nth_error l b = Some x -> slice l b (S b) = [x].
Proof.
  intro H. rewrite (slice_snoc l b b x H) by lia.
  unfold slice. rewrite skipn_all2; [reflexivity|].
  rewrite length_firstn. lia.
Qed.

Lemma slice_last (l : Track) (a b : nat) (x : AISMessage) :
  nth_error l b = Some x -> (a <= b)%nat ->
  last_opt (slice l a (S b)) = Some x.
Proof.
  intros H Hab. rewrite (slice_snoc l a b x H Hab). apply last_opt_snoc.
Qed.

(** On a track without repeated timestamps the loop records every
    maximal run but the one it is in when the track ends. *)
Lemma split_loop_runs (track : Track) :
  Sorted Z.lt (map timestamp track) ->
  forall (fuel i s : nat) (m : AISMessage) (it : list Track),
    nth_error track i = Some m ->
    (s <= i)%nat ->
    (length track <= fuel + S i)%nat ->
    concat it = firstn s track ->
    Forall (fun t : Track => t <> []) (it ++ [slice track s (S i)]) ->
    Forall (Sorted (joined is_split_point)) (it ++ [slice track s (S i)]) ->
    Sorted (broken is_split_point) (it ++ [slice track s (S i)]) ->
    exists tail,
      track = concat (snd (split_loop is_split_point fuel track m i s it)) ++ tail
      /\ Forall (fun t : Track => t <> [])
                (snd (split_loop is_split_point fuel track m i s it) ++ [tail])
      /\ Forall (Sorted (joined is_split_point))
                (snd (split_loop is_split_point fuel track m i s it) ++ [tail])
      /\ Sorted (broken is_split_point)
                (snd (split_loop is_split_point fuel track m i s it) ++ [tail]).
Proof.
  intro Hs.
  assert (Hend : forall i s it,
             (length track <= S i)%nat ->
             concat it = firstn s track ->
             track = concat it ++ slice track s (S i)).
  { intros i s it Hl Hcat. unfold slice. rewrite firstn_all2 by lia.
    rewrite Hcat. symmetry. apply firstn_skipn. }
  induction fuel as [|f IH]; intros i s m it Hm Hsi Hfuel Hcat Hne Hin Hbr;
    cbn [split_loop].
  - exists (slice track s (S i)). simpl.
    split; [apply Hend; [lia | exact Hcat]|]. auto.
  - destruct (nth_error track (S i)) as [m1|] eqn:E1.
    + assert (Hlt : timestamp m < timestamp m1).
      { apply (increasing_nth track Hs i (S i)); [lia | assumption | assumption]. }
      assert (Ene : (timestamp m =? timestamp m1) = false)
        by (apply Z.eqb_neq; lia).
      rewrite Ene.
      pose proof (slice_last track s i m Hm Hsi) as Elast.
      destruct (is_split_point m m1) eqn:Esp.
      * apply IH; [exact E1 | lia | lia | | | |].
        -- rewrite concat_app, Hcat. simpl. rewrite app_nil_r.
           unfold slice.
           transitivity (firstn s (firstn (S i) track)
                         ++ skipn s (firstn (S i) track)).
           ++ f_equal. rewrite firstn_firstn. f_equal. lia.
           ++ apply firstn_skipn.
        -- rewrite (slice_one track (S i) m1 E1).
           apply Forall_app. split; [exact Hne|].
           repeat constructor. discriminate.
        -- rewrite (slice_one track (S i) m1 E1).
           apply Forall_app. split; [exact Hin|]. repeat constructor.
        -- rewrite (slice_one track (S i) m1 E1).
           apply chain_snoc; [exact Hbr|].
           intros t Et. rewrite last_opt_snoc in Et. injection Et as <-.
           exists m, m1. repeat split; assumption.
      * apply Forall_app in Hne. destruct Hne as [Hne1 Hne2].
        apply Forall_app in Hin. destruct Hin as [Hin1 Hin2].
        apply chain_snoc_inv in Hbr. destruct Hbr as [Hb1 Hb2].
        assert (Hrun : slice track s (S i) <> []) by now inversion Hne2.
        apply IH; [exact E1 | lia | lia | exact Hcat | | |];
          rewrite (slice_snoc track s (S i) m1 E1) by lia.
        -- apply Forall_app. split; [exact Hne1|].
           repeat constructor. now destruct (slice track s (S i)).
        -- apply Forall_app. split; [exact Hin1|]. repeat constructor.
           apply chain_snoc; [now inversion Hin2|].
           intros y Ey. rewrite Elast in Ey. injection Ey as <-. exact Esp.
        -- apply chain_snoc; [exact Hb1|].
           intros t Et. destruct (Hb2 t Et) as [a [b [Ha [Hb Hsp]]]].
           exists a, b. repeat split; try assumption.
           destruct (slice track s (S i)); [congruence | exact Hb].
    + exists (slice track s (S i)). simpl.
      apply nth_error_None in E1.
      split; [apply Hend; [lia | exact Hcat]|]. auto.
Qed.

Lemma itracks_after_no_split (trs : list Track) (bound : option (list Track)) :
  (forall a b, is_split_point a b = false) ->
  (trs <> [] \/ bound = Some []) ->
  itracks_after is_split_point trs bound = Some [].
Proof.
  intros Hno. unfold itracks_after.
  revert bound. induction trs as [|t r IH]; intros bound H; simpl.
  - destruct H as [H|H]; [congruence | exact H].
  - apply IH. right. now rewrite split_track_no_split.
Qed.

Lemma split_targets_no_split (items : Targets) :
  (forall a b, is_split_point a b = false) ->
  Forall (fun kv : Z * TargetShip => mmsi (snd kv) = fst kv) items ->
  forall bound,
    (match items with
     | (_, tgt) :: _ => tracks tgt <> [] \/ bound = Some []
     | [] => True
     end) ->
    split_targets is_split_point (items, bound) items = Ok [].
Proof.
  intros Hno Hk. induction Hk as [|[k tgt] r Hkv Hr IH]; intros bound Hb.
  - reflexivity.
  - simpl in Hkv. subst k.
    cbn [split_targets split_target].
    rewrite (itracks_after_no_split _ _ Hno Hb). simpl.
    rewrite Z.eqb_refl. simpl. rewrite Z.eqb_refl.
    apply IH. destruct r as [|[k' t'] r']; [exact I | now right].
Qed.

End SplitFacts.

(** On a track whose timestamps are strictly increasing,
    [_determine_split_points] leaves the track as it is and records
    every maximal run of it but the last: the segments followed by the
    reports after the last split point are the track, none of these
    pieces is empty, no two neighbours inside a piece are a split
    point, and the last report of a piece and the first of the next
    always are.  So the segments, one after the other, are a proper
    prefix of the track, and its last report is in none of them. *)
Theorem split_track_prefix
    (is_split_point : AISMessage -> AISMessage -> bool) (track : Track) :
  track <> [] ->
  Sorted Z.lt (map timestamp track) ->
  fst (SearchAgent.split_track is_split_point track) = track
  /\ (exists n,
        (n < length track)%nat
        /\ concat (snd (SearchAgent.split_track is_split_point track))
           = firstn n track
        /\ forall m, last_opt track = Some m ->
                     ~ In m (concat (snd (SearchAgent.split_track is_split_point track))))
  /\ exists tail,
       track = concat (snd (SearchAgent.split_track is_split_point track)) ++ tail
       /\ Forall (fun t : Track => t <> [])
                 (snd (SearchAgent.split_track is_split_point track) ++ [tail])
       /\ Forall (Sorted (fun a b => is_split_point a b = false))
                 (snd (SearchAgent.split_track is_split_point track) ++ [tail])
       /\ Sorted (fun t t' : Track =>
                    exists a b, last_opt t = Some a /\ hd_error t' = Some b
                                /\ is_split_point a b = true)
                 (snd (SearchAgent.split_track is_split_point track) ++ [tail]).
Proof.
  intros Hne Hs. unfold SearchAgent.split_track.
  rewrite (sort_by_increasing track Hs).
  destruct track as [|m0 r] eqn:Et; [congruence|]. rewrite <- Et in *.
  assert (E0 : nth_error track 0 = Some m0) by now rewrite Et.
  destruct (split_loop_prefix is_split_point track Hs (length track) 0 0 m0 [])
    as [n [it' [E [Hn Hcat]]]].
  { exact E0. }
  { lia. }
  { reflexivity. }
  split; [now rewrite E|]. split.
  - rewrite E. simpl.
    exists n. split; [exact Hn|]. split; [exact Hcat|].
    intros m El Hin. rewrite Hcat in Hin.
    apply In_nth_error in Hin. destruct Hin as [j Hj].
    assert (Hjn : (j < n)%nat).
    { assert (H : nth_error (firstn n track) j <> None) by congruence.
      apply nth_error_Some in H. rewrite length_firstn in H. lia. }
    rewrite nth_error_firstn in Hj.
    assert (Ej : (j <? n)%nat = true) by now apply Nat.ltb_lt.
    rewrite Ej in Hj.
    apply last_opt_nth in El.
    pose proof (increasing_nth track Hs j (length track - 1) m m) as H.
    assert (timestamp m < timestamp m) by (apply H; [lia | assumption | assumption]).
    lia.
  - apply (split_loop_runs is_split_point track Hs (length track) 0 0 m0 []);
      [exact E0 | lia | lia | reflexivity | | |];
      rewrite (slice_one track 0 m0 E0); repeat constructor. discriminate.
Qed.

Lemma split_track_prefix_witness :
  fst (SearchAgent.split_track time_gap
         [message 0 0; message 10 1; message 5000 2; message 5010 3])
  = [message 0 0; message 10 1; message 5000 2; message 5010 3].
Proof.
  destruct (split_track_prefix time_gap
              [message 0 0; message 10 1; message 5000 2; message 5010 3])
    as [H _].
  - discriminate.
  - repeat constructor.
  - exact H.
Defined.

Example split_track_sample :
  snd (SearchAgent.split_track time_gap
         [message 0 0; message 10 1; message 5000 2; message 5010 3;
          message 9000 4])
  = [[message 0 0; message 10 1]; [message 5000 2; message 5010 3]].
Proof. reflexivity. Qed.

(** If no pair of reports is a split point, [_determine_split_points]
    removes every vessel: the result is the empty dictionary. *)
Theorem no_split_point_removes_all
    (is_split_point : AISMessage -> AISMessage -> bool)
    (targets : SearchAgent.Targets) :
  (forall a b, is_split_point a b = false) ->
  Forall (fun kv : Z * SearchAgent.TargetShip =>
            SearchAgent.mmsi (snd kv) = fst kv
            /\ SearchAgent.tracks (snd kv) <> []) targets ->
  SearchAgent._determine_split_points is_split_point targets = Ok [].
Proof.
  intros Hno Hall. unfold SearchAgent._determine_split_points.
  apply split_targets_no_split; [exact Hno | |].
  - eapply Forall_impl; [|exact Hall]. now intros kv [H _].
  - destruct targets as [|[k tgt] r]; [exact I|].
    inversion Hall as [|? ? [_ H] _]; subst. now left.
Qed.

Lemma no_split_point_removes_all_witness :
  SearchAgent._determine_split_points (fun _ _ => false)
    [(111000111,
      SearchAgent.mkTargetShip None 111000111
        [[message 0 0; message 10 1; message 20 2]])]
  = Ok [].
Proof.
  apply (no_split_point_removes_all (fun _ _ => false)).
  - reflexivity.
  - repeat constructor. discriminate.
Defined.

(** ** Corrections *)

(** [_speed_correction] never changes a report or its counter: it
    returns the targets and the counter as they were when no target
    has two or more tracks, and raises [AttributeError] as soon as one
    has. *)
Theorem speed_correction_changes_nothing
    (np_sqrt : Q -> Q) (targets : SearchAgent.Targets) (n : Z) :
  match SearchAgent._speed_correction np_sqrt targets n with
  | Ok (targets', n') =>
      targets' = targets /\ n' = n
      /\ forall k v, In (k, v) targets -> (length (SearchAgent.tracks v) <= 1)%nat
  | Raise e =>
      e = AttributeError
      /\ exists k v, In (k, v) targets /\ (2 <= length (SearchAgent.tracks v))%nat
  end.
Proof.
  unfold SearchAgent._speed_correction. rewrite speed_targets_cases.
  destruct (existsb _ (map snd targets)) eqn:E.
  - split; [reflexivity|]. now apply several_tracks_exists.
  - split; [reflexivity|]. split; [reflexivity|].
    intros k v Hin.
    destruct (le_lt_dec (length (SearchAgent.tracks v)) 1) as [H|H]; [exact H|].
    exfalso. apply not_true_iff_false in E. apply E.
    apply several_tracks_exists. exists k, v. split; [exact Hin | lia].
Qed.

(** [_position_correction] never changes a report or its counter: it
    returns the targets and the counter as they were when no target
    has two or more tracks, and raises [AttributeError] as soon as one
    has. *)
Theorem position_correction_changes_nothing
    (targets : SearchAgent.Targets) (n : Z) :
  match SearchAgent._position_correction targets n with
  | Ok (targets', n') =>
      targets' = targets /\ n' = n
      /\ forall k v, In (k, v) targets -> (length (SearchAgent.tracks v) <= 1)%nat
  | Raise e =>
      e = AttributeError
      /\ exists k v, In (k, v) targets /\ (2 <= length (SearchAgent.tracks v))%nat
  end.
Proof.
  unfold SearchAgent._position_correction. rewrite position_targets_cases.
  destruct (existsb _ (map snd targets)) eqn:E.
  - split; [reflexivity|]. now apply several_tracks_exists.
  - split; [reflexivity|]. split; [reflexivity|].
    intros k v Hin.
    destruct (le_lt_dec (length (SearchAgent.tracks v)) 1) as [H|H]; [exact H|].
    exfalso. apply not_true_iff_false in E. apply E.
    apply several_tracks_exists. exists k, v. split; [exact Hin | lia].
Qed.

(** [_corrections] returns exactly when no target has two or more
    tracks, and then hands back the targets and both counters as they
    were; otherwise the speed pass raises [AttributeError] and the
    position pass is not reached. *)
Theorem corrections_change_nothing
    (np_sqrt : Q -> Q) (targets : SearchAgent.Targets) (ns np : Z) :
  (SearchAgent._corrections np_sqrt targets ns np = Ok (targets, ns, np)
   <-> forall k v, In (k, v) targets -> (length (SearchAgent.tracks v) <= 1)%nat)
  /\ (SearchAgent._corrections np_sqrt targets ns np = Raise AttributeError
      <-> exists k v, In (k, v) targets /\ (2 <= length (SearchAgent.tracks v))%nat)
  /\ (SearchAgent._corrections np_sqrt targets ns np = Ok (targets, ns, np)
      \/ SearchAgent._corrections np_sqrt targets ns np = Raise AttributeError).
Proof.
  unfold SearchAgent._corrections, SearchAgent._speed_correction,
    SearchAgent._position_correction.
  rewrite speed_targets_cases.
  pose proof (several_tracks_exists targets) as S.
  destruct (existsb _ (map snd targets)) eqn:E.
  - split; [|split; [|now right]].
    + split; [discriminate|]. intro H. exfalso.
      destruct (proj1 S eq_refl) as [k [v [Hin Hl]]].
      specialize (H k v Hin). lia.
    + split; [intros _; now apply S | reflexivity].
  - rewrite position_targets_cases, E.
    split; [|split; [|now left]].
    + split; [|reflexivity]. intros _ k v Hin.
      destruct (le_lt_dec (length (SearchAgent.tracks v)) 1) as [H|H]; [exact H|].
      exfalso. assert (false = true) as A; [|discriminate A].
      apply (proj2 S). exists k, v. split; [exact Hin | lia].
    + split; [discriminate|]. intro H. apply S in H. discriminate.
Qed.

(** ** Distribution by vessel *)

Section DistributeFacts.
Import SearchAgent.

Lemma unique_In (l : list Z) :
  forall seen x, In x (unique seen l) <-> In x l /\ ~ In x seen.
Proof.
  induction l as [|y r IH]; intros seen x; simpl.
  - tauto.
  - destruct (existsb (Z.eqb y) seen) eqn:E.
    + apply existsb_exists in E. destruct E as [z [Hz Ez]].
      apply Z.eqb_eq in Ez. subst z.
      rewrite IH. split; [tauto|].
      intros [[->|H] Hn]; [contradiction | tauto].
    + simpl. rewrite IH. simpl.
      assert (Hy : ~ In y seen).
      { intro H. apply not_true_iff_false in E. apply E.
        apply existsb_exists. exists y. split; [exact H | apply Z.eqb_refl]. }
      split.
      * intros [->|[H Hn]]; [tauto|]. split; [tauto|]. tauto.
      * intros [[->|H] Hn]; [now left|].
        destruct (Z.eq_dec y x) as [->|Hne]; [now left|].
        right. split; [exact H|]. intros [H'|H']; [congruence | tauto].
Qed.

Lemma unique_NoDup (l : list Z) : forall seen, NoDup (unique seen l).
Proof.
  induction l as [|y r IH]; intro seen; simpl.
  - constructor.
  - destruct (existsb (Z.eqb y) seen); [apply IH|].
    constructor; [|apply IH].
    intro H. apply unique_In in H. destruct H as [_ H]. apply H. now left.
Qed.

Lemma NoDup_map_on {A B : Type} (f : A -> B) (l : list A) :
  (forall x y, In x l -> In y l -> f x = f y -> x = y) ->
  NoDup l -> NoDup (map f l).
Proof.
  intros Hinj Hnd. induction Hnd as [|x r Hx Hr IH]; simpl.
  - constructor.
  - constructor.
    + intro H. apply in_map_iff in H. destruct H as [y [E Hy]].
      apply Hx. rewrite (Hinj x y); [exact Hy | now left | now right | now symmetry].
    + apply IH. intros a b Ha Hb. apply Hinj; now right.
Qed.

End DistributeFacts.

(** [_distribute] cuts a frame into one non-empty frame per vessel:
    every frame holds all rows of one MMSI and only those, in their
    order, every row is in the frame of its MMSI and in no other, the
    chunk constructor accepts every frame, and no frame comes
    twice. *)
Theorem distribute_partition (df : list SearchAgent.Row) :
  (forall f, In f (SearchAgent._distribute df) ->
     exists r0,
       In r0 f
       /\ f = filter (fun r => SearchAgent.r_mmsi r =? SearchAgent.r_mmsi r0) df
       /\ SearchAgent._impl_construct_target_vessel f <> Raise IndexError)
  /\ (forall r, In r df ->
        In (filter (fun r' => SearchAgent.r_mmsi r' =? SearchAgent.r_mmsi r) df)
           (SearchAgent._distribute df))
  /\ (forall f g r, In f (SearchAgent._distribute df) ->
        In g (SearchAgent._distribute df) -> In r f -> In r g -> f = g)
  /\ NoDup (SearchAgent._distribute df)
  /\ length (SearchAgent._distribute df)
     = length (SearchAgent.unique [] (map SearchAgent.r_mmsi df)).
Proof.
  unfold SearchAgent._distribute.
  assert (Hf : forall f,
             In f (map (fun mmsi =>
                          filter (fun r => SearchAgent.r_mmsi r =? mmsi) df)
                       (SearchAgent.unique [] (map SearchAgent.r_mmsi df))) ->
             exists m, f = filter (fun r => SearchAgent.r_mmsi r =? m) df
                       /\ In m (map SearchAgent.r_mmsi df)).
  { intros f Hin. apply in_map_iff in Hin. destruct Hin as [m [<- Hm]].
    apply unique_In in Hm. exists m. tauto. }
  split; [|split; [|split; [|split]]].
  - intros f Hin. destruct (Hf f Hin) as [m [-> Hm]].
    apply in_map_iff in Hm. destruct Hm as [r0 [<- Hr0]].
    assert (H0 : In r0 (filter (fun r => SearchAgent.r_mmsi r
                                         =? SearchAgent.r_mmsi r0) df)).
    { apply filter_In. split; [exact Hr0 | apply Z.eqb_refl]. }
    exists r0. split; [exact H0|]. split; [reflexivity|].
    unfold SearchAgent._impl_construct_target_vessel.
    destruct (filter _ df); [destruct H0 | discriminate].
  - intros r Hin. apply in_map_iff. exists (SearchAgent.r_mmsi r).
    split; [reflexivity|]. apply unique_In. split; [now apply in_map | tauto].
  - intros f g r Hinf Hing Hrf Hrg.
    destruct (Hf f Hinf) as [m [-> _]]. destruct (Hf g Hing) as [m' [-> _]].
    apply filter_In in Hrf. apply filter_In in Hrg.
    destruct Hrf as [_ E]. destruct Hrg as [_ E'].
    apply Z.eqb_eq in E. apply Z.eqb_eq in E'.
    assert (Em : m = m') by (rewrite <- E, <- E'; reflexivity).
    rewrite Em. reflexivity.
  - apply NoDup_map_on; [|apply unique_NoDup].
    intros m m' Hm _ E.
    apply unique_In in Hm. destruct Hm as [Hm _].
    apply in_map_iff in Hm. destruct Hm as [r0 [E0 Hr0]].
    assert (H0 : In r0 (filter (fun r => SearchAgent.r_mmsi r =? m) df)).
    { apply filter_In. split; [exact Hr0 | now apply Z.eqb_eq]. }
    rewrite E in H0. apply filter_In in H0. destruct H0 as [_ H0].
    apply Z.eqb_eq in H0. congruence.
  - apply length_map.
Qed.

(** ** Static attributes *)

Section StaticFacts.
Import SearchAgent.

Lemma dedup_sorted_In (l : list Z) (x : Z) :
  In x (dedup_sorted l) <-> In x l.
Proof.
  induction l as [|a r IH]; [reflexivity|].
  destruct r as [|b r']; [reflexivity|].
  change (dedup_sorted (a :: b :: r'))
    with (if a =? b then dedup_sorted (b :: r') else a :: dedup_sorted (b :: r')).
  destruct (a =? b) eqn:E.
  - apply Z.eqb_eq in E. subst b. rewrite IH. simpl. tauto.
  - simpl In at 1. rewrite IH. simpl. tauto.
Qed.

Lemma dedup_sorted_head (a : Z) (r : list Z) :
  exists t, dedup_sorted (a :: r) = a :: t.
Proof.
  revert a. induction r as [|b r' IH]; intro a.
  - exists []. reflexivity.
  - change (dedup_sorted (a :: b :: r'))
      with (if a =? b then dedup_sorted (b :: r') else a :: dedup_sorted (b :: r')).
    destruct (a =? b) eqn:E.
    + apply Z.eqb_eq in E. subst b. apply IH.
    + eexists. reflexivity.
Qed.

Lemma dedup_sorted_increasing (l : list Z) :
  Sorted Z.le l -> Sorted Z.lt (dedup_sorted l).
Proof.
  induction l as [|a r IH]; intro Hs; [constructor|].
  inversion Hs as [|? ? Hs' Hd]; subst.
  destruct r as [|b r']; [repeat constructor|].
  change (dedup_sorted (a :: b :: r'))
    with (if a =? b then dedup_sorted (b :: r') else a :: dedup_sorted (b :: r')).
  destruct (a =? b) eqn:E; [now apply IH|].
  apply Z.eqb_neq in E. inversion Hd; subst.
  constructor; [now apply IH|].
  destruct (dedup_sorted_head b r') as [t ->]. constructor. lia.
Qed.

Lemma np_unique_In (l : list Z) (x : Z) : In x (np_unique l) <-> In x l.
Proof.
  unfold np_unique. rewrite dedup_sorted_In. apply sort_by_In.
Qed.

Lemma np_unique_increasing (l : list Z) : Sorted Z.lt (np_unique l).
Proof.
  unfold np_unique. apply dedup_sorted_increasing.
  pose proof (sort_by_sorted (fun z : Z => z) l) as H.
  now rewrite map_id in H.
Qed.

Lemma py_max_bounds (l : list Z) :
  forall x, In (py_max x l) (x :: l) /\ forall y, In y (x :: l) -> y <= py_max x l.
Proof.
  unfold py_max. induction l as [|a r IH]; intro x; simpl.
  - split; [now left|]. intros y [Ey|[]]. lia.
  - destruct (IH (if x <? a then a else x)) as [Hin Hle]. split.
    + destruct Hin as [E|Hin]; [|tauto].
      rewrite <- E. destruct (x <? a); tauto.
    + intros y [Ey|[Ey|Hy]].
      * subst y. specialize (Hle _ (or_introl eq_refl)).
        destruct (x <? a) eqn:E; [apply Z.ltb_lt in E | apply Z.ltb_ge in E]; lia.
      * subst y. specialize (Hle _ (or_introl eq_refl)).
        destruct (x <? a) eqn:E; [apply Z.ltb_lt in E | apply Z.ltb_ge in E]; lia.
      * apply Hle. now right.
Qed.

End StaticFacts.

(** The ship types on file for a vessel come back without repetition,
    in increasing order, and are exactly the types of its static
    reports. *)
Theorem get_ship_type_distinct
    (static_msgs : list SearchAgent.StaticRow) (mmsi : Z) :
  Sorted Z.lt (SearchAgent._get_ship_type static_msgs mmsi)
  /\ forall t,
       In t (SearchAgent._get_ship_type static_msgs mmsi)
       <-> exists r, In r static_msgs /\ SearchAgent.s_mmsi r = mmsi
                     /\ SearchAgent.s_shiptype r = t.
Proof.
  unfold SearchAgent._get_ship_type. split; [apply np_unique_increasing|].
  intro t. rewrite np_unique_In, in_map_iff. split.
  - intros [r [<- Hr]]. apply filter_In in Hr. destruct Hr as [Hr E].
    apply Z.eqb_eq in E. eauto.
  - intros [r [Hr [E <-]]]. exists r. split; [reflexivity|].
    apply filter_In. split; [exact Hr | now apply Z.eqb_eq].
Qed.

Lemma wrap64_small (z : Z) : - 2 ^ 63 <= z < 2 ^ 63 -> SearchAgent.wrap64 z = z.
Proof.
  intro H. unfold SearchAgent.wrap64. rewrite Z.mod_small; lia.
Qed.

(** The length of a static report is the [int64] sum of its two
    columns, which is their sum as long as both are below [2 ^ 62] in
    absolute value and wraps around beyond.  When the static reports
    of a vessel disagree on that length, the largest one on file is
    returned as one number; otherwise the result is an array, empty
    when the vessel has no static report and holding the common
    length when it has. *)
Theorem get_ship_length_largest
    (static_msgs : list SearchAgent.StaticRow) (mmsi : Z) :
  let len := fun r =>
    SearchAgent.wrap64 (SearchAgent.s_to_bow r + SearchAgent.s_to_stern r) in
  let on_file := fun z => exists r, In r static_msgs
                                    /\ SearchAgent.s_mmsi r = mmsi /\ len r = z in
  (forall r,
     - 2 ^ 62 <= SearchAgent.s_to_bow r < 2 ^ 62 ->
     - 2 ^ 62 <= SearchAgent.s_to_stern r < 2 ^ 62 ->
     len r = SearchAgent.s_to_bow r + SearchAgent.s_to_stern r)
  /\ len (SearchAgent.mkStaticRow mmsi 0 (2 ^ 63 - 1) 1) = - 2 ^ 63
  /\ match SearchAgent._get_ship_length static_msgs mmsi with
     | SearchAgent.Scalar z =>
         on_file z
         /\ (forall y, on_file y -> y <= z)
         /\ exists y, on_file y /\ y < z
     | SearchAgent.Array [] => forall y, ~ on_file y
     | SearchAgent.Array (x :: rest) =>
         rest = [] /\ on_file x /\ forall y, on_file y -> y = x
     end.
Proof.
  intros len on_file.
  split; [intros r Hb Hs; unfold len; apply wrap64_small; lia|].
  split; [reflexivity|].
  unfold SearchAgent._get_ship_length.
  set (sl := map (fun r => SearchAgent.wrap64
                             (SearchAgent.s_to_bow r + SearchAgent.s_to_stern r))
                 (filter (fun r => SearchAgent.s_mmsi r =? mmsi) static_msgs)).
  assert (Hon : forall z, In z (SearchAgent.np_unique sl) <-> on_file z).
  { intro z. rewrite np_unique_In. unfold sl, on_file, len.
    rewrite in_map_iff. split.
    - intros [r [<- Hr]]. apply filter_In in Hr. destruct Hr as [Hr E].
      apply Z.eqb_eq in E. eauto.
    - intros [r [Hr [E <-]]]. exists r. split; [reflexivity|].
      apply filter_In. split; [exact Hr | now apply Z.eqb_eq]. }
  pose proof (np_unique_increasing sl) as Hs.
  destruct (SearchAgent.np_unique sl) as [|x [|y rest]] eqn:Eu.
  - intros y Hy. apply Hon in Hy. exact Hy.
  - split; [reflexivity|]. split; [apply Hon; now left|].
    intros y Hy. apply Hon in Hy. destruct Hy as [<-|[]]. reflexivity.
  - simpl tl. destruct (py_max_bounds (y :: rest) x) as [Hin Hle].
    split; [now apply Hon|]. split.
    + intros z Hz. apply Hle. now apply Hon.
    + exists x. split; [apply Hon; now left|].
      inversion Hs as [|? ? _ Hd]; subst. inversion Hd; subst.
      specialize (Hle y (or_intror (or_introl eq_refl))). lia.
Qed.

Example get_ship_length_samples :
  SearchAgent._get_ship_length static_reports 1 = SearchAgent.Scalar 120
  /\ SearchAgent._get_ship_length static_reports 2 = SearchAgent.Array [60]
  /\ SearchAgent._get_ship_length static_reports 3 = SearchAgent.Array []
  /\ SearchAgent._get_ship_type static_reports 1 = [70; 71].
Proof. repeat split. Qed.

(** ** Shells *)

Lemma sorted_bounds (l : list Z) (x : Z) :
  Sorted Z.le (x :: l) ->
  forall y, In y (x :: l) -> x <= y /\ y <= last l x.
Proof.
  revert x. induction l as [|a r IH]; intros x Hs y Hin.
  - destruct Hin as [<-|[]]. simpl. lia.
  - inversion Hs as [|? ? Hs' Hd]; subst. inversion Hd; subst.
    rewrite last_cons.
    destruct Hin as [<-|Hin].
    + destruct (IH a Hs' a (or_introl eq_refl)). lia.
    + destruct (IH a Hs' y Hin). lia.
Qed.

Lemma last_In {A : Type} (r : list A) (m0 : A) : In (last r m0) (m0 :: r).
Proof.
  revert m0. induction r as [|a r' IH]; intro m0; [now left|].
  rewrite last_cons. right. apply IH.
Qed.

(** [find_shell] raises exactly on an empty track; on a track in time
    order the shell it finds bounds the time of every report. *)
Theorem find_shell_bounds (track : Track) :
  (TargetShip.find_shell track = Raise IndexError <-> track = [])
  /\ (Sorted Z.le (map timestamp track) ->
      forall lower upper,
        TargetShip.find_shell track = Ok (lower, upper) ->
        In lower track /\ In upper track
        /\ forall m, In m track ->
             timestamp lower <= timestamp m /\ timestamp m <= timestamp upper).
Proof.
  destruct track as [|m0 r].
  - split; [split; reflexivity|]. discriminate.
  - split; [split; discriminate|].
    intros Hs lower upper E. simpl in E. injection E as <- <-.
    split; [now left|]. split.
    + apply last_In.
    + intros m Hin.
      assert (Hl : timestamp (last r m0) = last (map timestamp r) (timestamp m0)).
      { clear. revert m0. induction r as [|a r' IH]; intro m0; [reflexivity|].
        rewrite last_cons. simpl map. rewrite last_cons. apply IH. }
      rewrite Hl. apply (sorted_bounds (map timestamp r) (timestamp m0) Hs).
      now apply (in_map timestamp (m0 :: r)).
Qed.

Lemma find_shell_bounds_witness :
  0 <= timestamp (mkAISMessage 111000111 100 1 1 90 10)
  /\ timestamp (mkAISMessage 111000111 100 1 1 90 10) <= 100.
Proof.
  destruct (find_shell_bounds (TargetShip.track vessel_0_100)) as [_ H].
  destruct (H ltac:(repeat constructor; discriminate)
              (mkAISMessage 111000111 0 0 0 90 10)
              (mkAISMessage 111000111 100 1 1 90 10) eq_refl) as [_ [_ B]].
  apply (B (mkAISMessage 111000111 100 1 1 90 10)).
  right. left. reflexivity.
Defined.
